(** * threadpool.h: a fixed-size worker-thread pool

    A shallow embedding of [src/threadpool.h] and the properties its
    specification states about it.

    - Part 1 embeds the structs, the two critical-section macros and the
      bodies of [POOL_create], [POOL_exectask], [await_and_do_tasks] and
      [POOL_destroy] as programs over the pool state.
    - Part 2 interleaves those programs: a scheduler picks which thread
      runs its next critical section.
    - Part 3 proves the properties of the single functions.
    - Part 4 proves the invariants of the interleaving.
    - Part 5 proves that a fairly scheduled shutdown drains the pool, and
      what happens when a submission is rejected instead.
    - Part 6 proves more about the pool: its state before [POOL_destroy],
      the finality of the shutdown flag, who holds the mutex, the bound on
      the tasks in flight, a pool without threads.
    - Part 7 runs [main] of [src/threadpool_test.c] next to its workers.
    - Part 8 proves that the stack changes at its head only.

    What the embedding takes for granted: [malloc] and [pthread_create]
    succeed; [perror], [pthread_detach], [free] of a popped node and
    [sched_yield] do not touch the pool; a task function returns and does
    not touch the pool either, so that calling it shows only as an entry in
    the list of calls made. Every access to the pool happens between a lock
    and an unlock (or after all workers are gone), so a critical section is
    taken as one atomic step. *)

From Stdlib Require Import ZArith Lia.
From stdpp Require Import base list.

Local Open Scope Z_scope.

(* ===================================================================== *)
(** * Part 1: the code                                                    *)
(* ===================================================================== *)

(** ** Machine integers *)

(** [size_t] is a 64-bit unsigned integer: a [Z] in [0, 2^64), with the
    wrap-around of unsigned arithmetic written out. *)
Definition SIZE_WIDTH : Z := 64.
Definition size_wrap (x : Z) : Z := x mod 2 ^ SIZE_WIDTH.
Definition is_size_t (x : Z) : Prop := 0 <= x < 2 ^ SIZE_WIDTH.

(** A pointer is its address; the null pointer is address 0. *)
Definition NULL : Z := 0.

(** ** Struct definitions *)

(** One node of [struct TaskStack]: the function pointer and its argument.
    The [next] field chains the nodes into a null-terminated stack, which
    is the list of its nodes from the head on; the empty list is [NULL]. *)
Record TaskStack : Type := mkTask {
  task_fn : Z;
  task_args : Z
}.

(** The threads that touch a pool: callers of [POOL_exectask], the caller
    of [POOL_destroy] and the workers spawned by [POOL_create]. *)
Inductive thread : Type :=
| Client (c : nat)
| Destroyer
| Worker (i : nat).

(** A [pthread_mutex_t]: free, held by a thread, or destroyed. *)
Inductive mutex : Type :=
| Unlocked
| Locked (owner : thread)
| Destroyed.

Definition PTHREAD_MUTEX_INITIALIZER : mutex := Unlocked.

(** [struct Threadpool]. [threads] is the malloc'ed array of handles,
    [None] once it has been freed. *)
Record Threadpool : Type := mkPool {
  pool_mutex : mutex;
  task_stack : list TaskStack;
  num_threads : Z;
  num_threads_running : Z;
  threads : option (list thread);
  is_shutdown : bool
}.

Definition set_pool_mutex (m : mutex) (p : Threadpool) : Threadpool :=
  mkPool m (task_stack p) (num_threads p) (num_threads_running p)
         (threads p) (is_shutdown p).
Definition set_task_stack (s : list TaskStack) (p : Threadpool) : Threadpool :=
  mkPool (pool_mutex p) s (num_threads p) (num_threads_running p)
         (threads p) (is_shutdown p).
Definition set_num_threads (n : Z) (p : Threadpool) : Threadpool :=
  mkPool (pool_mutex p) (task_stack p) n (num_threads_running p)
         (threads p) (is_shutdown p).
Definition set_num_threads_running (n : Z) (p : Threadpool) : Threadpool :=
  mkPool (pool_mutex p) (task_stack p) (num_threads p) n
         (threads p) (is_shutdown p).
Definition set_threads (t : option (list thread)) (p : Threadpool) : Threadpool :=
  mkPool (pool_mutex p) (task_stack p) (num_threads p) (num_threads_running p)
         t (is_shutdown p).
Definition set_is_shutdown (b : bool) (p : Threadpool) : Threadpool :=
  mkPool (pool_mutex p) (task_stack p) (num_threads p) (num_threads_running p)
         (threads p) b.

(** ** Programs over the pool *)

(** What a piece of code does when a thread runs it on the pool: it
    returns a value, it ends the process through [exit], or the thread
    cannot proceed because the mutex is not available. *)
Inductive outcome (A : Type) : Type :=
| Ret (a : A) (p : Threadpool)
| Exit (status : Z) (p : Threadpool)
| Block.
Arguments Ret {A} a p.
Arguments Exit {A} status p.
Arguments Block {A}.

(** The calling thread, and what the operating system answers to its next
    [pthread_mutex_lock] and [pthread_mutex_unlock]. *)
Record Env : Type := mkEnv {
  self : thread;
  lock_rc : Z;
  unlock_rc : Z
}.

Definition prog (A : Type) : Type := Env -> Threadpool -> outcome A.

Definition ret {A} (a : A) : prog A := fun _ p => Ret a p.

Definition bind {A B} (c : prog A) (k : A -> prog B) : prog B :=
  fun e p =>
    match c e p with
    | Ret a p' => k a e p'
    | Exit st p' => Exit st p'
    | Block => Block
    end.

Declare Scope prog_scope.
Notation "x ← y ; z" := (bind y (fun x => z))
  (at level 20, y at level 100, z at level 200, only parsing) : prog_scope.
Notation "x ;; z" := (bind x (fun _ => z))
  (at level 100, z at level 200, only parsing, right associativity) : prog_scope.
Local Open Scope prog_scope.

Definition read {A} (field : Threadpool -> A) : prog A :=
  fun _ p => Ret (field p) p.
Definition write (upd : Threadpool -> Threadpool) : prog unit :=
  fun _ p => Ret tt (upd p).

(** [exit(status)]: the process ends here. *)
Definition exit {A} (status : Z) : prog A := fun _ p => Exit status p.

(** [pthread_mutex_lock]: a non-zero return code is a failure that leaves
    the mutex alone; otherwise the caller takes a free mutex, and cannot
    proceed on one that is held or destroyed. *)
Definition pthread_mutex_lock : prog Z :=
  fun e p =>
    if lock_rc e =? 0 then
      match pool_mutex p with
      | Unlocked => Ret 0 (set_pool_mutex (Locked (self e)) p)
      | Locked _ | Destroyed => Block
      end
    else Ret (lock_rc e) p.

(** [pthread_mutex_unlock]: a non-zero return code is a failure that leaves
    the mutex alone; otherwise a held mutex becomes free. *)
Definition pthread_mutex_unlock : prog Z :=
  fun e p =>
    if unlock_rc e =? 0 then
      match pool_mutex p with
      | Locked _ => Ret 0 (set_pool_mutex Unlocked p)
      | Unlocked | Destroyed => Ret 0 p
      end
    else Ret (unlock_rc e) p.

Definition pthread_mutex_destroy : prog unit :=
  write (set_pool_mutex Destroyed).

Definition POOL_CRITICAL_BEGIN : prog unit :=
  rc ← pthread_mutex_lock;
  if negb (rc =? 0) then exit 1 else ret tt.

Definition POOL_CRITICAL_END : prog unit :=
  rc ← pthread_mutex_unlock;
  if negb (rc =? 0) then exit 1 else ret tt.

(** ** Threadpool methods *)

(** Where a worker thread is in [await_and_do_tasks]: at the top of its
    loop, holding a task it has popped and is about to call, or returned. *)
Inductive worker_pc : Type :=
| W_loop
| W_call (work : TaskStack)
| W_returned.

(** The spawning loop of [POOL_create]: iteration [i] stores the handle of
    a new thread in [threads[i]]; the thread starts at the top of
    [await_and_do_tasks]. *)
Fixpoint POOL_create_loop (iterations : nat) (i : nat)
    (handles : list thread) (spawned : list worker_pc)
    : list thread * list worker_pc :=
  match iterations with
  | O => (handles, spawned)
  | S k => POOL_create_loop k (S i) (handles ++ [Worker i]) (spawned ++ [W_loop])
  end.

(** [POOL_create(pool, num_threads)]: every field of [pool] is overwritten;
    the result is the initialised pool and the threads it spawned. *)
Definition POOL_create (pool : Threadpool) (num_threads : Z)
    : Threadpool * list worker_pc :=
  let pmut_init := PTHREAD_MUTEX_INITIALIZER in
  let pool := set_pool_mutex pmut_init pool in
  let pool := set_task_stack [] pool in
  let pool := set_is_shutdown false pool in
  let pool := set_num_threads num_threads pool in
  let pool := set_num_threads_running num_threads pool in
  let '(handles, spawned) :=
    POOL_create_loop (Z.to_nat num_threads) 0 [] [] in
  (set_threads (Some handles) pool, spawned).

(** [POOL_exectask(pool, task_fn, task_args)]. The early [return 0] leaves
    the function from inside the critical section. *)
Definition POOL_exectask (fn args : Z) : prog bool :=
  POOL_CRITICAL_BEGIN ;;
  shut ← read is_shutdown;
  if shut then ret false
  else
    let work := mkTask fn args in
    next ← read task_stack;
    write (set_task_stack (work :: next)) ;;
    POOL_CRITICAL_END ;;
    ret true.

(** One turn of the [while (true)] loop of [await_and_do_tasks], up to the
    end of its critical section; the result says where the thread goes. *)
Definition await_and_do_tasks_iteration : prog worker_pc :=
  POOL_CRITICAL_BEGIN ;;
  shut ← read is_shutdown;
  stack ← read task_stack;
  if shut && bool_decide (stack = []) then
    n ← read num_threads_running;
    write (set_num_threads_running (size_wrap (n - 1))) ;;
    POOL_CRITICAL_END ;;
    ret W_returned
  else
    work ← match stack with
            | [] => ret None
            | w :: next => write (set_task_stack next) ;; ret (Some w)
            end;
    POOL_CRITICAL_END ;;
    match work with
    | Some w => ret (W_call w)
    | None => ret W_loop
    end.

(** Where the caller of [POOL_destroy] is: before its first critical
    section, in the first or second waiting loop, before the teardown, or
    returned. *)
Inductive destroy_pc : Type :=
| D_entry
| D_wait_stack
| D_wait_running
| D_teardown
| D_returned.

(** [POOL_destroy], one critical section (or the teardown) at a time. *)
Definition POOL_destroy_step (pc : destroy_pc) : prog destroy_pc :=
  match pc with
  | D_entry =>
      POOL_CRITICAL_BEGIN ;;
      write (set_is_shutdown true) ;;
      POOL_CRITICAL_END ;;
      ret D_wait_stack
  | D_wait_stack =>
      POOL_CRITICAL_BEGIN ;;
      stack ← read task_stack;
      POOL_CRITICAL_END ;;
      let waiting := negb (bool_decide (stack = [])) in
      if waiting then ret D_wait_stack else ret D_wait_running
  | D_wait_running =>
      POOL_CRITICAL_BEGIN ;;
      n ← read num_threads_running;
      POOL_CRITICAL_END ;;
      let waiting := negb (n =? 0) in
      if waiting then ret D_wait_running else ret D_teardown
  | D_teardown =>
      pthread_mutex_destroy ;;
      write (set_threads None) ;;
      ret D_returned
  | D_returned => ret D_returned
  end.

(* ===================================================================== *)
(** * Part 2: the threads together                                        *)
(* ===================================================================== *)

(** The whole process: the pool, where the caller of [POOL_destroy] and
    every worker are, and the exit status once [exit] has been called.
    [accepted] records the tasks for which [POOL_exectask] returned true
    and [executed] the calls [task_fn(task_args)] made by the workers, both
    in the order in which they happened. *)
Record System : Type := mkSys {
  pool : Threadpool;
  destroyer : destroy_pc;
  workers : list worker_pc;
  accepted : list TaskStack;
  executed : list TaskStack;
  status : option Z
}.

(** What the scheduler lets happen next: client [c] calls [POOL_exectask],
    the caller of [POOL_destroy] goes on, or worker [i] goes on. *)
Inductive action : Type :=
| Submit (c : nat) (work : TaskStack)
| Destroy
| Run (i : nat).

Definition thread_of (a : action) : thread :=
  match a with
  | Submit c _ => Client c
  | Destroy => Destroyer
  | Run i => Worker i
  end.

(** An action together with the return codes the mutex calls made during
    it will get. *)
Record event : Type := mkEvent {
  ev_action : action;
  ev_lock_rc : Z;
  ev_unlock_rc : Z
}.

Definition env_of (ev : event) : Env :=
  mkEnv (thread_of (ev_action ev)) (ev_lock_rc ev) (ev_unlock_rc ev).

(** The process after a thread ran a piece of code: [k] says how a normal
    return changes it, [exit] records the status, and a thread that cannot
    proceed takes no step. *)
Definition after {A} (s : System) (o : outcome A)
    (k : A -> Threadpool -> System) : option System :=
  match o with
  | Ret a p' => Some (k a p')
  | Exit st p' =>
      Some (mkSys p' (destroyer s) (workers s) (accepted s) (executed s) (Some st))
  | Block => None
  end.

(** One step of the process. A thread holds the mutex for the whole of a
    critical section, so a critical section is one step. *)
Definition step (ev : event) (s : System) : option System :=
  match status s with
  | Some _ => None
  | None =>
      match ev_action ev with
      | Submit c work =>
          after s (POOL_exectask (task_fn work) (task_args work) (env_of ev) (pool s))
            (fun ok p' =>
               mkSys p' (destroyer s) (workers s)
                     (if ok : bool then accepted s ++ [work] else accepted s)
                     (executed s) None)
      | Destroy =>
          match destroyer s with
          | D_returned => None
          | pc =>
              after s (POOL_destroy_step pc (env_of ev) (pool s))
                (fun pc' p' =>
                   mkSys p' pc' (workers s) (accepted s) (executed s) None)
          end
      | Run i =>
          match workers s !! i with
          | Some W_loop =>
              after s (await_and_do_tasks_iteration (env_of ev) (pool s))
                (fun w p' =>
                   mkSys p' (destroyer s) (<[i:=w]> (workers s))
                         (accepted s) (executed s) None)
          | Some (W_call work) =>
              Some (mkSys (pool s) (destroyer s) (<[i:=W_loop]> (workers s))
                          (accepted s) (executed s ++ [work]) None)
          | Some W_returned | None => None
          end
      end
  end.

(** A run: the events happen one after the other. *)
Fixpoint run (evs : list event) (s : System) : option System :=
  match evs with
  | [] => Some s
  | ev :: evs' =>
      match step ev s with
      | Some s' => run evs' s'
      | None => None
      end
  end.

(** The process right after [POOL_create(&pool, n)] on an uninitialised
    [pool]. *)
Definition boot (uninit : Threadpool) (n : Z) : System :=
  let '(p, spawned) := POOL_create uninit n in
  mkSys p D_entry spawned [] [] None.

Definition reachable (n : Z) (s : System) : Prop :=
  exists uninit evs, run evs (boot uninit n) = Some s.

(** The mutex calls of an environment or an event succeed. *)
Definition calls_succeed (e : Env) : Prop := lock_rc e = 0 /\ unlock_rc e = 0.
Definition ok (a : action) : event := mkEvent a 0 0.

(** Drivers for the queue discipline: the tasks [ts] are submitted one
    after the other, and [n] turns of the worker loop are taken, collecting
    the tasks they pop. *)
Fixpoint submit_all (ts : list TaskStack) (e : Env) (p : Threadpool)
    : outcome (list bool) :=
  match ts with
  | [] => Ret [] p
  | t :: ts' =>
      match POOL_exectask (task_fn t) (task_args t) e p with
      | Ret b p' =>
          match submit_all ts' e p' with
          | Ret bs p'' => Ret (b :: bs) p''
          | o => o
          end
      | Exit st p' => Exit st p'
      | Block => Block
      end
  end.

Fixpoint iterate_worker (n : nat) (e : Env) (p : Threadpool)
    : outcome (list worker_pc) :=
  match n with
  | O => Ret [] p
  | S k =>
      match await_and_do_tasks_iteration e p with
      | Ret w p' =>
          match iterate_worker k e p' with
          | Ret ws p'' => Ret (w :: ws) p''
          | o => o
          end
      | Exit st p' => Exit st p'
      | Block => Block
      end
  end.

(** Workers that have not returned, and the tasks they hold. *)
Definition alive (w : worker_pc) : bool :=
  match w with W_returned => false | _ => true end.

Definition holding (w : worker_pc) : list TaskStack :=
  match w with W_call work => [work] | _ => [] end.

Definition in_flight (ws : list worker_pc) : list TaskStack :=
  concat (map holding ws).

Fixpoint count_alive (ws : list worker_pc) : nat :=
  match ws with
  | [] => O
  | w :: ws' => ((if alive w then 1 else 0) + count_alive ws')%nat
  end.

Fixpoint count_returned (ws : list worker_pc) : nat :=
  match ws with
  | [] => O
  | w :: ws' => ((if alive w then 0 else 1) + count_returned ws')%nat
  end.

(** The next piece of code of the acting thread opens a critical section. *)
Definition takes_mutex (a : action) (s : System) : Prop :=
  match a with
  | Submit _ _ => True
  | Destroy =>
      destroyer s = D_entry \/ destroyer s = D_wait_stack \/
      destroyer s = D_wait_running
  | Run i => workers s !! i = Some W_loop
  end.

(** The process once [exit(st)] has been called. *)
Definition exited (st : Z) (s : System) : System :=
  mkSys (pool s) (destroyer s) (workers s) (accepted s) (executed s) (Some st).

(** ** Invariant of the running process *)

(** What holds, for a pool created with [n] threads, of every state the
    process reaches while it has not exited. *)
Record Inv (n : Z) (s : System) : Prop := mkInv {
  inv_num_threads : num_threads (pool s) = n;
  inv_workers : Z.of_nat (length (workers s)) = n;
  inv_running :
    num_threads_running (pool s) = Z.of_nat (count_alive (workers s));
  inv_entry :
    destroyer s = D_entry ->
    is_shutdown (pool s) = false /\ pool_mutex (pool s) = Unlocked;
  inv_shutdown :
    destroyer s <> D_entry -> is_shutdown (pool s) = true;
  inv_tasks :
    accepted s ≡ₚ task_stack (pool s) ++ in_flight (workers s) ++ executed s;
  inv_drained :
    destroyer s = D_wait_running \/ destroyer s = D_teardown \/
    destroyer s = D_returned ->
    task_stack (pool s) = [];
  inv_stopped :
    destroyer s = D_teardown \/ destroyer s = D_returned ->
    num_threads_running (pool s) = 0;
  inv_mutex :
    pool_mutex (pool s) = Destroyed <-> destroyer s = D_returned;
  inv_handles :
    threads (pool s) = None <-> destroyer s = D_returned;
  inv_locked :
    forall o, pool_mutex (pool s) = Locked o ->
    is_shutdown (pool s) = true /\ exists c, o = Client c;
  inv_returned :
    (count_alive (workers s) < length (workers s))%nat ->
    is_shutdown (pool s) = true /\ task_stack (pool s) = []
}.

(** ** Schedules without end *)

(** A schedule names the thread that is given the processor at each
    instant; a thread that cannot take a step then lets the instant pass. *)
Definition schedule : Type := nat -> action.

Definition step_or_stay (a : action) (s : System) : System :=
  match step (ok a) s with
  | Some s' => s'
  | None => s
  end.

Fixpoint exec (sched : schedule) (k : nat) (s : System) : System :=
  match k with
  | O => s
  | S k' => step_or_stay (sched k') (exec sched k' s)
  end.

Definition no_submit (a : action) : Prop :=
  match a with Submit _ _ => False | _ => True end.

(** Nobody calls [POOL_exectask] any more. *)
Definition quiet (sched : schedule) : Prop := forall k, no_submit (sched k).

(** Every thread of the pool gets the processor again and again. *)
Definition fair (n : nat) (sched : schedule) : Prop :=
  (forall k, exists k', (k <= k')%nat /\ sched k' = Destroy) /\
  (forall i, (i < n)%nat -> forall k, exists k', (k <= k')%nat /\ sched k' = Run i).

(** The work that is left for the workers. *)
Definition backlog (s : System) : nat :=
  (2 * length (task_stack (pool s)) + length (in_flight (workers s))
   + count_alive (workers s))%nat.

(** How many steps [POOL_destroy] is away from its return. *)
Definition destroy_rank (pc : destroy_pc) : nat :=
  match pc with
  | D_entry => 4
  | D_wait_stack => 3
  | D_wait_running => 2
  | D_teardown => 1
  | D_returned => 0
  end.

(** The process runs, and no rejected [POOL_exectask] has left the mutex
    locked. *)
Definition live (n : Z) (s : System) : Prop :=
  Inv n s /\ status s = None /\ forall o, pool_mutex (pool s) <> Locked o.

(** The steps of the pool's own threads when every mutex call succeeds. *)
Inductive transition : action -> System -> System -> Prop :=
| T_entry s :
    pool_mutex (pool s) = Unlocked -> destroyer s = D_entry ->
    transition Destroy s
      (mkSys (set_is_shutdown true (pool s)) D_wait_stack (workers s)
             (accepted s) (executed s) None)
| T_wait_stack s :
    pool_mutex (pool s) = Unlocked -> destroyer s = D_wait_stack ->
    transition Destroy s
      (mkSys (pool s)
             (if bool_decide (task_stack (pool s) = []) then D_wait_running
              else D_wait_stack)
             (workers s) (accepted s) (executed s) None)
| T_wait_running s :
    pool_mutex (pool s) = Unlocked -> destroyer s = D_wait_running ->
    transition Destroy s
      (mkSys (pool s)
             (if num_threads_running (pool s) =? 0 then D_teardown
              else D_wait_running)
             (workers s) (accepted s) (executed s) None)
| T_teardown s :
    destroyer s = D_teardown ->
    transition Destroy s
      (mkSys (set_threads None (set_pool_mutex Destroyed (pool s)))
             D_returned (workers s) (accepted s) (executed s) None)
| T_return s i :
    pool_mutex (pool s) = Unlocked -> workers s !! i = Some W_loop ->
    is_shutdown (pool s) = true -> task_stack (pool s) = [] ->
    transition (Run i) s
      (mkSys (set_num_threads_running
                (size_wrap (num_threads_running (pool s) - 1)) (pool s))
             (destroyer s) (<[i:=W_returned]> (workers s))
             (accepted s) (executed s) None)
| T_pop s i work next :
    pool_mutex (pool s) = Unlocked -> workers s !! i = Some W_loop ->
    task_stack (pool s) = work :: next ->
    transition (Run i) s
      (mkSys (set_task_stack next (pool s))
             (destroyer s) (<[i:=W_call work]> (workers s))
             (accepted s) (executed s) None)
| T_yield s i :
    pool_mutex (pool s) = Unlocked -> workers s !! i = Some W_loop ->
    is_shutdown (pool s) = false -> task_stack (pool s) = [] ->
    transition (Run i) s
      (mkSys (pool s) (destroyer s) (<[i:=W_loop]> (workers s))
             (accepted s) (executed s) None)
| T_call s i work :
    workers s !! i = Some (W_call work) ->
    transition (Run i) s
      (mkSys (pool s) (destroyer s) (<[i:=W_loop]> (workers s))
             (accepted s) (executed s ++ [work]) None).

(** ** The test driver *)

(** [main] of [threadpool_test.c] runs next to the workers it creates. Its
    state is the process, the loop counter [i], and its return value once
    it has returned. The address of the task function [nothing] is a
    parameter; [nothing] returns at once and touches nothing. *)
Record Test : Type := mkTest {
  process : System;
  loop_i : Z;
  main_status : option Z
}.

Inductive test_thread : Type :=
| Main
| Pool (i : nat).

Record test_event : Type := mkTestEvent {
  te_thread : test_thread;
  te_lock_rc : Z;
  te_unlock_rc : Z
}.

(** [Threadpool pool; POOL_create(&pool, 8);] and [int i = 0]. *)
Definition main_boot (uninit : Threadpool) : Test :=
  mkTest (boot uninit 8) 0 None.

Definition in_process (t : Test) (o : option System) : option Test :=
  match o with
  | Some s' => Some (mkTest s' (loop_i t) (main_status t))
  | None => None
  end.

(** The next step of [main]: while [i < 5000] it calls
    [POOL_exectask(&pool, nothing, NULL)], drops the result and increments
    [i]; then it goes through [POOL_destroy(&pool)]; then it falls off the
    end of [main], which returns 0. *)
Definition main_step (nothing : Z) (lrc urc : Z) (t : Test) : option Test :=
  if loop_i t <? 5000 then
    match step (mkEvent (Submit 0 (mkTask nothing NULL)) lrc urc) (process t) with
    | Some s' => Some (mkTest s' (loop_i t + 1) (main_status t))
    | None => None
    end
  else
    match destroyer (process t) with
    | D_returned => Some (mkTest (process t) (loop_i t) (Some 0))
    | _ => in_process t (step (mkEvent Destroy lrc urc) (process t))
    end.

Definition test_step (nothing : Z) (ev : test_event) (t : Test) : option Test :=
  match main_status t, status (process t) with
  | None, None =>
      match te_thread ev with
      | Main => main_step nothing (te_lock_rc ev) (te_unlock_rc ev) t
      | Pool i =>
          in_process t
            (step (mkEvent (Run i) (te_lock_rc ev) (te_unlock_rc ev)) (process t))
      end
  | _, _ => None
  end.

Fixpoint test_run (nothing : Z) (evs : list test_event) (t : Test) : option Test :=
  match evs with
  | [] => Some t
  | ev :: evs' =>
      match test_step nothing ev t with
      | Some t' => test_run nothing evs' t'
      | None => None
      end
  end.

(** What holds of the test at any time while the process runs. *)
Definition test_inv (nothing : Z) (t : Test) : Prop :=
  status (process t) = None /\
  reachable 8 (process t) /\
  0 <= loop_i t <= 5000 /\
  accepted (process t)
    = replicate (Z.to_nat (loop_i t)) (mkTask nothing NULL) /\
  (loop_i t < 5000 -> destroyer (process t) = D_entry) /\
  (forall o, pool_mutex (pool (process t)) <> Locked o) /\
  (main_status t = None \/
   (main_status t = Some 0 /\ destroyer (process t) = D_returned /\
    loop_i t = 5000)).

(** Schedules of the test without end, with mutex calls that succeed. *)
Definition test_schedule : Type := nat -> test_thread.

Definition test_step_or_stay (nothing : Z) (th : test_thread) (t : Test) : Test :=
  match test_step nothing (mkTestEvent th 0 0) t with
  | Some t' => t'
  | None => t
  end.

Fixpoint test_exec (nothing : Z) (tsched : test_schedule) (k : nat) (t : Test)
    : Test :=
  match k with
  | O => t
  | S k' => test_step_or_stay nothing (tsched k') (test_exec nothing tsched k' t)
  end.

Definition test_fair (tsched : test_schedule) : Prop :=
  (forall k, exists k', (k <= k')%nat /\ tsched k' = Main) /\
  (forall i, (i < 8)%nat -> forall k, exists k', (k <= k')%nat /\ tsched k' = Pool i).

(** What the pool's threads do when the test follows [tsched] from instant
    [k0] on and [main] is past its loop. *)
Definition pool_schedule (tsched : test_schedule) (k0 : nat) : schedule :=
  fun j =>
    match tsched (k0 + j)%nat with
    | Main => Destroy
    | Pool i => Run i
    end.

(** Round robin over [main] and the eight workers. *)
Definition test_round_robin : test_schedule :=
  fun k =>
    match (k mod 9)%nat with
    | O => Main
    | S i => Pool i
    end.

(** ** Sample states *)

Definition example_env : Env := mkEnv (Client 0) 0 0.
Definition worker_env : Env := mkEnv (Worker 0) 0 0.
Definition open_pool : Threadpool :=
  mkPool Unlocked [mkTask 5 6] 2 2 (Some [Worker 0; Worker 1]%nat) false.
Definition closing_pool : Threadpool :=
  mkPool Unlocked [mkTask 5 6] 2 2 (Some [Worker 0; Worker 1]%nat) true.

(** A process with two workers, and one that [exit] has ended. *)
Definition two_workers : System := boot closing_pool 2.
Definition failing_env : Env := mkEnv (Worker 0) 22 0.
Definition exited_system : System :=
  mkSys open_pool D_entry [W_loop; W_loop] [] [] (Some 1).

(** Two tasks are submitted and the pool is destroyed, the workers taking
    turns in between. *)
Definition sample_run : list event :=
  map ok [Submit 0 (mkTask 1 10); Run 0; Submit 0 (mkTask 2 20); Destroy;
          Run 1; Run 0; Run 1; Destroy; Run 0; Run 1; Destroy;
          Destroy]%nat.

Definition sample_mid : System :=
  Eval vm_compute in
    match run (firstn 5 sample_run) two_workers with
    | Some s => s
    | None => two_workers
    end.

Definition sample_start : System :=
  Eval vm_compute in
    match run (firstn 3 sample_run) two_workers with
    | Some s => s
    | None => two_workers
    end.

Definition sample_end : System :=
  Eval vm_compute in
    match run sample_run two_workers with
    | Some s => s
    | None => two_workers
    end.

(** [POOL_destroy] has begun when a client submits one more task. *)
Definition late_submit_run : list event :=
  map ok [Submit 0 (mkTask 1 10); Destroy; Submit 1 (mkTask 2 20)]%nat.

Definition sample_stuck : System :=
  Eval vm_compute in
    match run late_submit_run two_workers with
    | Some s => s
    | None => two_workers
    end.

(** [POOL_destroy] waits in its first loop; a pool created with no thread
    that has accepted one task. *)
Definition sample_waiting : System :=
  Eval vm_compute in
    match run (firstn 2 late_submit_run) two_workers with
    | Some s => s
    | None => two_workers
    end.

Definition sample_popped : System :=
  Eval vm_compute in
    match step (ok (Run 1)) sample_waiting with
    | Some s => s
    | None => sample_waiting
    end.

Definition no_thread_system : System :=
  Eval vm_compute in
    match run [ok (Submit 0 (mkTask 1 10))] (boot closing_pool 0) with
    | Some s => s
    | None => boot closing_pool 0
    end.

(** Round robin over the destroyer and two workers. *)
Definition round_robin : schedule :=
  fun k =>
    match (k mod 3)%nat with
    | O => Destroy
    | S O => Run 0
    | _ => Run 1
    end.

(** [main] has submitted three tasks and a worker has popped one. *)
Definition test_sample_run : list test_event :=
  [mkTestEvent Main 0 0; mkTestEvent Main 0 0; mkTestEvent (Pool 3) 0 0;
   mkTestEvent Main 0 0].

Definition test_sample : Test :=
  Eval vm_compute in
    match test_run 4096 test_sample_run (main_boot closing_pool) with
    | Some t => t
    | None => main_boot closing_pool
    end.

(* ===================================================================== *)
(** * Part 3: the functions one by one                                    *)
(* ===================================================================== *)

(** Unfolds a program down to the pool it returns. *)
Ltac run_prog :=
  cbv [POOL_exectask await_and_do_tasks_iteration POOL_destroy_step
       POOL_CRITICAL_BEGIN POOL_CRITICAL_END pthread_mutex_lock
       pthread_mutex_unlock pthread_mutex_destroy bind ret read write exit
       set_pool_mutex set_task_stack set_num_threads_running set_threads
       set_is_shutdown pool_mutex task_stack num_threads num_threads_running
       threads is_shutdown lock_rc unlock_rc self].

(** Splits on whether the two return codes are zero. *)
Ltac rcs :=
  repeat (progress
    (simpl; repeat match goal with H : (_ =? 0) = _ |- _ => rewrite H end)).
Ltac split_rcs lrc urc :=
  destruct (lrc =? 0) eqn:El; destruct (urc =? 0) eqn:Eu; rcs.

Ltac open_records p e :=
  destruct p as [pm ts nt nr th sd]; destruct e as [me lrc urc];
  unfold calls_succeed in *; simpl in *; subst.

Lemma task_eta (t : TaskStack) : mkTask (task_fn t) (task_args t) = t.
Proof. by destruct t. Qed.

Section Functions.

Implicit Types (e : Env) (p : Threadpool) (fn args : Z).

(** ** [POOL_exectask] *)

Lemma POOL_exectask_rejects e p fn args :
  lock_rc e = 0 -> pool_mutex p = Unlocked -> is_shutdown p = true ->
  POOL_exectask fn args e p = Ret false (set_pool_mutex (Locked (self e)) p).
Proof. intros ? ? ?. open_records p e. reflexivity. Qed.

Lemma POOL_exectask_accepts e p fn args :
  calls_succeed e -> pool_mutex p = Unlocked -> is_shutdown p = false ->
  POOL_exectask fn args e p =
    Ret true (set_task_stack (mkTask fn args :: task_stack p) p).
Proof. intros [? ?] ? ?. open_records p e. reflexivity. Qed.

(** A call that returns took the mutex, and returned in one of two ways. *)
Lemma POOL_exectask_Ret e p fn args b p' :
  POOL_exectask fn args e p = Ret b p' ->
  pool_mutex p = Unlocked /\
  ((b = false /\ is_shutdown p = true /\
    p' = set_pool_mutex (Locked (self e)) p) \/
   (b = true /\ is_shutdown p = false /\
    p' = set_task_stack (mkTask fn args :: task_stack p) p)).
Proof.
  open_records p e. run_prog. split_rcs lrc urc.
  all: destruct pm; rcs; try discriminate.
  all: destruct sd; rcs; try discriminate.
  all: intros H; inversion H; subst; auto.
Qed.

(** ** [await_and_do_tasks] *)

Lemma iteration_returns e p :
  calls_succeed e -> pool_mutex p = Unlocked ->
  is_shutdown p = true -> task_stack p = [] ->
  await_and_do_tasks_iteration e p =
    Ret W_returned
        (set_num_threads_running (size_wrap (num_threads_running p - 1)) p).
Proof. intros [? ?] ? ? ?. open_records p e. reflexivity. Qed.

Lemma iteration_pops e p w next :
  calls_succeed e -> pool_mutex p = Unlocked -> task_stack p = w :: next ->
  await_and_do_tasks_iteration e p = Ret (W_call w) (set_task_stack next p).
Proof.
  intros [? ?] ? ?. open_records p e. run_prog. simpl.
  rewrite andb_false_r. reflexivity.
Qed.

Lemma iteration_yields e p :
  calls_succeed e -> pool_mutex p = Unlocked ->
  is_shutdown p = false -> task_stack p = [] ->
  await_and_do_tasks_iteration e p = Ret W_loop p.
Proof. intros [? ?] ? ? ?. open_records p e. reflexivity. Qed.

(** ** [POOL_destroy] *)

Lemma destroy_entry e p :
  calls_succeed e -> pool_mutex p = Unlocked ->
  POOL_destroy_step D_entry e p = Ret D_wait_stack (set_is_shutdown true p).
Proof. intros [? ?] ?. open_records p e. reflexivity. Qed.

Lemma destroy_wait_stack e p :
  calls_succeed e -> pool_mutex p = Unlocked ->
  POOL_destroy_step D_wait_stack e p =
    Ret (if bool_decide (task_stack p = []) then D_wait_running
         else D_wait_stack) p.
Proof.
  intros [? ?] ?. open_records p e. run_prog. simpl.
  destruct (bool_decide (ts = [])); reflexivity.
Qed.

Lemma destroy_wait_running e p :
  calls_succeed e -> pool_mutex p = Unlocked ->
  POOL_destroy_step D_wait_running e p =
    Ret (if num_threads_running p =? 0 then D_teardown else D_wait_running) p.
Proof.
  intros [? ?] ?. open_records p e. run_prog. simpl.
  destruct (nr =? 0); reflexivity.
Qed.

Lemma destroy_teardown e p :
  POOL_destroy_step D_teardown e p =
    Ret D_returned (set_threads None (set_pool_mutex Destroyed p)).
Proof. reflexivity. Qed.

(** ** Returns and exits *)

(** A turn of the worker loop that returns took the mutex, gave it back,
    and went one of three ways. *)
Lemma iteration_Ret e p w p' :
  await_and_do_tasks_iteration e p = Ret w p' ->
  pool_mutex p = Unlocked /\
  ((w = W_returned /\ is_shutdown p = true /\ task_stack p = [] /\
    p' = set_num_threads_running (size_wrap (num_threads_running p - 1)) p) \/
   (exists work next, w = W_call work /\ task_stack p = work :: next /\
    p' = set_task_stack next p) \/
   (w = W_loop /\ is_shutdown p = false /\ task_stack p = [] /\ p' = p)).
Proof.
  open_records p e. run_prog. split_rcs lrc urc.
  all: destruct pm; rcs; try discriminate.
  all: destruct sd, ts as [|work next]; rcs; try discriminate.
  all: intros H; inversion H; subst; eauto 10.
Qed.

(** A step of [POOL_destroy] that returns. *)
Lemma destroy_Ret pc e p pc' p' :
  POOL_destroy_step pc e p = Ret pc' p' ->
  match pc with
  | D_entry =>
      pool_mutex p = Unlocked /\ pc' = D_wait_stack /\
      p' = set_is_shutdown true p
  | D_wait_stack =>
      pool_mutex p = Unlocked /\ p' = p /\
      ((task_stack p = [] /\ pc' = D_wait_running) \/
       (task_stack p <> [] /\ pc' = D_wait_stack))
  | D_wait_running =>
      pool_mutex p = Unlocked /\ p' = p /\
      ((num_threads_running p = 0 /\ pc' = D_teardown) \/
       (num_threads_running p <> 0 /\ pc' = D_wait_running))
  | D_teardown =>
      pc' = D_returned /\ p' = set_threads None (set_pool_mutex Destroyed p)
  | D_returned => pc' = D_returned /\ p' = p
  end.
Proof.
  destruct pc.
  - open_records p e. run_prog. split_rcs lrc urc.
    all: destruct pm; rcs; try discriminate.
    all: intros H; inversion H; subst; auto.
  - open_records p e. run_prog. split_rcs lrc urc.
    all: destruct pm; rcs; try discriminate.
    all: destruct ts; rcs; intros H; inversion H; subst; auto.
  - open_records p e. run_prog. split_rcs lrc urc.
    all: destruct pm; rcs; try discriminate.
    all: destruct (Z.eqb_spec nr 0); rcs; intros H; inversion H; subst; auto.
  - intros H; inversion H; subst; auto.
  - intros H; inversion H; subst; auto.
Qed.

(** The only exit status is 1, and it takes a failed mutex call. *)
Lemma POOL_exectask_Exit e p fn args st p' :
  POOL_exectask fn args e p = Exit st p' ->
  st = 1 /\ (lock_rc e <> 0 \/ unlock_rc e <> 0).
Proof.
  open_records p e. run_prog.
  split_rcs lrc urc.
  all: destruct pm; rcs; try discriminate.
  all: try destruct sd; rcs; try discriminate.
  all: intros H; inversion H; subst; split; [done|].
  all: first [left; by apply Z.eqb_neq | right; by apply Z.eqb_neq].
Qed.

Lemma iteration_Exit e p st p' :
  await_and_do_tasks_iteration e p = Exit st p' ->
  st = 1 /\ (lock_rc e <> 0 \/ unlock_rc e <> 0).
Proof.
  open_records p e. run_prog.
  split_rcs lrc urc.
  all: destruct pm; rcs; try discriminate.
  all: try (destruct sd, ts as [|work next]; rcs; try discriminate).
  all: intros H; inversion H; subst; split; [done|].
  all: first [left; by apply Z.eqb_neq | right; by apply Z.eqb_neq].
Qed.

Lemma destroy_Exit pc e p st p' :
  POOL_destroy_step pc e p = Exit st p' ->
  st = 1 /\ (lock_rc e <> 0 \/ unlock_rc e <> 0).
Proof.
  open_records p e. destruct pc; run_prog.
  all: split_rcs lrc urc.
  all: try discriminate.
  all: destruct pm; rcs; try discriminate.
  all: try (destruct ts; rcs; try discriminate).
  all: try (destruct (nr =? 0); rcs; try discriminate).
  all: intros H; inversion H; subst; split; [done|].
  all: first [left; by apply Z.eqb_neq | right; by apply Z.eqb_neq].
Qed.

(** ** [POOL_create] *)

Lemma POOL_create_loop_spec k i handles spawned :
  POOL_create_loop k i handles spawned =
    (handles ++ map Worker (seq i k), spawned ++ replicate k W_loop).
Proof.
  revert i handles spawned.
  induction k as [|k IH]; intros i handles spawned; simpl.
  - by rewrite !app_nil_r.
  - rewrite IH. by rewrite <- !app_assoc.
Qed.

Lemma POOL_create_spec uninit n :
  POOL_create uninit n =
    (mkPool Unlocked [] n n (Some (map Worker (seq 0 (Z.to_nat n)))) false,
     replicate (Z.to_nat n) W_loop).
Proof.
  unfold POOL_create. rewrite POOL_create_loop_spec. reflexivity.
Qed.

End Functions.

#[global] Arguments POOL_exectask : simpl never.
#[global] Arguments await_and_do_tasks_iteration : simpl never.
#[global] Arguments POOL_destroy_step : simpl never.

(** ** Steps of the process whose mutex calls succeed *)

Section Steps.

Implicit Types (s : System) (i c : nat) (work : TaskStack).

Lemma step_submit_accepted s c work :
  status s = None -> pool_mutex (pool s) = Unlocked ->
  is_shutdown (pool s) = false ->
  step (ok (Submit c work)) s =
    Some (mkSys (set_task_stack (work :: task_stack (pool s)) (pool s))
                (destroyer s) (workers s) (accepted s ++ [work])
                (executed s) None).
Proof.
  intros Hst Hm Hs. unfold step. rewrite Hst. cbn [ev_action ok].
  rewrite POOL_exectask_accepts by done. by rewrite task_eta.
Qed.

Lemma step_submit_rejected s c work :
  status s = None -> pool_mutex (pool s) = Unlocked ->
  is_shutdown (pool s) = true ->
  step (ok (Submit c work)) s =
    Some (mkSys (set_pool_mutex (Locked (Client c)) (pool s))
                (destroyer s) (workers s) (accepted s) (executed s) None).
Proof.
  intros Hst Hm Hs. unfold step. rewrite Hst. cbn [ev_action ok].
  by rewrite POOL_exectask_rejects.
Qed.

Lemma step_run_returns s i :
  status s = None -> pool_mutex (pool s) = Unlocked ->
  workers s !! i = Some W_loop ->
  is_shutdown (pool s) = true -> task_stack (pool s) = [] ->
  step (ok (Run i)) s =
    Some (mkSys (set_num_threads_running
                   (size_wrap (num_threads_running (pool s) - 1)) (pool s))
                (destroyer s) (<[i:=W_returned]> (workers s))
                (accepted s) (executed s) None).
Proof.
  intros Hst Hm Hw Hs Hts. unfold step. rewrite Hst. cbn [ev_action ok].
  rewrite Hw. by rewrite iteration_returns.
Qed.

Lemma step_run_pops s i work next :
  status s = None -> pool_mutex (pool s) = Unlocked ->
  workers s !! i = Some W_loop ->
  task_stack (pool s) = work :: next ->
  step (ok (Run i)) s =
    Some (mkSys (set_task_stack next (pool s))
                (destroyer s) (<[i:=W_call work]> (workers s))
                (accepted s) (executed s) None).
Proof.
  intros Hst Hm Hw Hts. unfold step. rewrite Hst. cbn [ev_action ok].
  rewrite Hw. by erewrite iteration_pops.
Qed.

Lemma step_run_yields s i :
  status s = None -> pool_mutex (pool s) = Unlocked ->
  workers s !! i = Some W_loop ->
  is_shutdown (pool s) = false -> task_stack (pool s) = [] ->
  step (ok (Run i)) s =
    Some (mkSys (pool s) (destroyer s) (<[i:=W_loop]> (workers s))
                (accepted s) (executed s) None).
Proof.
  intros Hst Hm Hw Hs Hts. unfold step. rewrite Hst. cbn [ev_action ok].
  rewrite Hw. by rewrite iteration_yields.
Qed.

Lemma step_run_calls s i work ev :
  status s = None -> ev_action ev = Run i ->
  workers s !! i = Some (W_call work) ->
  step ev s =
    Some (mkSys (pool s) (destroyer s) (<[i:=W_loop]> (workers s))
                (accepted s) (executed s ++ [work]) None).
Proof.
  intros Hst Hev Hw. unfold step. by rewrite Hst, Hev, Hw.
Qed.

Lemma step_run_returned s i ev :
  ev_action ev = Run i -> workers s !! i = Some W_returned ->
  step ev s = None.
Proof.
  intros Hev Hw. unfold step. rewrite Hev, Hw. by destruct (status s).
Qed.

Lemma step_destroy_entry s :
  status s = None -> pool_mutex (pool s) = Unlocked ->
  destroyer s = D_entry ->
  step (ok Destroy) s =
    Some (mkSys (set_is_shutdown true (pool s)) D_wait_stack (workers s)
                (accepted s) (executed s) None).
Proof.
  intros Hst Hm Hd. unfold step. rewrite Hst, Hd. cbn [ev_action ok].
  by rewrite destroy_entry.
Qed.

Lemma step_destroy_wait_stack s :
  status s = None -> pool_mutex (pool s) = Unlocked ->
  destroyer s = D_wait_stack ->
  step (ok Destroy) s =
    Some (mkSys (pool s)
                (if bool_decide (task_stack (pool s) = []) then D_wait_running
                 else D_wait_stack)
                (workers s) (accepted s) (executed s) None).
Proof.
  intros Hst Hm Hd. unfold step. rewrite Hst, Hd. cbn [ev_action ok].
  by rewrite destroy_wait_stack.
Qed.

Lemma step_destroy_wait_running s :
  status s = None -> pool_mutex (pool s) = Unlocked ->
  destroyer s = D_wait_running ->
  step (ok Destroy) s =
    Some (mkSys (pool s)
                (if num_threads_running (pool s) =? 0 then D_teardown
                 else D_wait_running)
                (workers s) (accepted s) (executed s) None).
Proof.
  intros Hst Hm Hd. unfold step. rewrite Hst, Hd. cbn [ev_action ok].
  by rewrite destroy_wait_running.
Qed.

Lemma step_destroy_teardown s ev :
  status s = None -> ev_action ev = Destroy -> destroyer s = D_teardown ->
  step ev s =
    Some (mkSys (set_threads None (set_pool_mutex Destroyed (pool s)))
                D_returned (workers s) (accepted s) (executed s) None).
Proof.
  intros Hst Hev Hd. unfold step. by rewrite Hst, Hev, Hd.
Qed.

End Steps.

(** ** Submitting *)

(** C1. [POOL_exectask] fails exactly when the shutdown flag is set. Called
    on a pool whose mutex it can take: with the flag set it returns false
    and the task stack is the one it found; with the flag clear it returns
    true and the submitted task is the new head, on top of the stack it
    found. Whatever it returns, it returns false if and only if the flag
    was set. *)
Theorem POOL_exectask_fails_iff_shutdown (e : Env) (p : Threadpool) (fn args : Z) :
  lock_rc e = 0 -> pool_mutex p = Unlocked ->
  (is_shutdown p = true ->
   exists p', POOL_exectask fn args e p = Ret false p' /\
              task_stack p' = task_stack p /\
              num_threads_running p' = num_threads_running p /\
              is_shutdown p' = true) /\
  (is_shutdown p = false -> unlock_rc e = 0 ->
   exists p', POOL_exectask fn args e p = Ret true p' /\
              head (task_stack p') = Some (mkTask fn args) /\
              task_stack p' = mkTask fn args :: task_stack p) /\
  (forall b p', POOL_exectask fn args e p = Ret b p' ->
                b = false <-> is_shutdown p = true).
Proof.
  intros Hl Hm. split; [|split].
  - intros Hs. rewrite POOL_exectask_rejects by done.
    eexists; split; [reflexivity|]. by destruct p.
  - intros Hs Hu. rewrite POOL_exectask_accepts by done.
    eexists; split; [reflexivity|]. by destruct p.
  - intros b p' H. destruct (is_shutdown p) eqn:Hs.
    + rewrite POOL_exectask_rejects in H by done. by inversion H.
    + apply POOL_exectask_Ret in H as (_ & [(-> & Hs' & _)|(-> & _ & _)]).
      * congruence.
      * split; discriminate.
Qed.

Lemma POOL_exectask_fails_iff_shutdown_witness :
  (is_shutdown closing_pool = true ->
   exists p', POOL_exectask 7 9 example_env closing_pool = Ret false p' /\
              task_stack p' = task_stack closing_pool /\
              num_threads_running p' = num_threads_running closing_pool /\
              is_shutdown p' = true) /\
  (is_shutdown closing_pool = false -> unlock_rc example_env = 0 ->
   exists p', POOL_exectask 7 9 example_env closing_pool = Ret true p' /\
              head (task_stack p') = Some (mkTask 7 9) /\
              task_stack p' = mkTask 7 9 :: task_stack closing_pool) /\
  (forall b p', POOL_exectask 7 9 example_env closing_pool = Ret b p' ->
                b = false <-> is_shutdown closing_pool = true).
Proof.
  apply (POOL_exectask_fails_iff_shutdown example_env closing_pool 7 9);
    reflexivity.
Defined.

(** C2, as the code has it. When the shutdown flag is set, [POOL_exectask]
    returns false from inside its critical section: the mutex it took is
    still held by the caller when the call is over. *)
Theorem POOL_exectask_rejection_keeps_mutex (e : Env) (p : Threadpool) (fn args : Z) :
  lock_rc e = 0 -> pool_mutex p = Unlocked -> is_shutdown p = true ->
  exists p', POOL_exectask fn args e p = Ret false p' /\
             pool_mutex p' = Locked (self e) /\
             pool_mutex p' <> Unlocked.
Proof.
  intros Hl Hm Hs. rewrite POOL_exectask_rejects by done.
  eexists; split; [reflexivity|]. by destruct p.
Qed.

Lemma POOL_exectask_rejection_keeps_mutex_witness :
  exists p', POOL_exectask 7 9 example_env closing_pool = Ret false p' /\
             pool_mutex p' = Locked (Client 0) /\
             pool_mutex p' <> Unlocked.
Proof.
  apply (POOL_exectask_rejection_keeps_mutex example_env closing_pool 7 9);
    reflexivity.
Defined.

(** The other return of [POOL_exectask] does release the mutex. *)
Lemma POOL_exectask_acceptance_releases_mutex (e : Env) (p : Threadpool) (fn args : Z) :
  calls_succeed e -> pool_mutex p = Unlocked -> is_shutdown p = false ->
  exists p', POOL_exectask fn args e p = Ret true p' /\
             pool_mutex p' = Unlocked.
Proof.
  intros He Hm Hs. rewrite POOL_exectask_accepts by done.
  eexists; split; [reflexivity|]. by destruct p.
Qed.

(** ** The queue discipline *)

Lemma submit_all_accepted (e : Env) (ts : list TaskStack) (p : Threadpool) :
  calls_succeed e -> pool_mutex p = Unlocked -> is_shutdown p = false ->
  submit_all ts e p =
    Ret (replicate (length ts) true)
        (set_task_stack (rev ts ++ task_stack p) p).
Proof.
  intros He. revert p. induction ts as [|t ts IH]; intros p Hm Hs.
  - by destruct p.
  - simpl. rewrite POOL_exectask_accepts by done.
    rewrite IH by (by destruct p). rewrite task_eta.
    f_equal. destruct p; simpl. unfold set_task_stack; simpl.
    by rewrite <- app_assoc.
Qed.

Lemma iterate_worker_pops (e : Env) (ts rest : list TaskStack) (p : Threadpool) :
  calls_succeed e -> pool_mutex p = Unlocked -> task_stack p = ts ++ rest ->
  iterate_worker (length ts) e p = Ret (map W_call ts) (set_task_stack rest p).
Proof.
  intros He. revert p. induction ts as [|t ts IH]; intros p Hm Hst.
  - simpl in *. subst. by destruct p.
  - simpl. erewrite iteration_pops by done.
    rewrite IH by (by destruct p). by destruct p.
Qed.

(** C3. The task stack is last in, first out. From a pool that accepts
    tasks, (1) when any tasks [ts] are submitted in that order, the next
    [length ts] turns of the worker loop pop them in the reverse order and
    leave the pool as it was; (2) for three tasks A, B, C the three pops
    are C, B, A; (3) a pop right after a push takes the task just pushed. *)
Theorem task_stack_is_LIFO (e ew : Env) (p : Threadpool) :
  calls_succeed e -> calls_succeed ew ->
  pool_mutex p = Unlocked -> is_shutdown p = false ->
  (forall ts, exists p1,
     submit_all ts e p = Ret (replicate (length ts) true) p1 /\
     iterate_worker (length ts) ew p1 = Ret (map W_call (rev ts)) p) /\
  (forall A B C, exists p1 p2 p3 q1 q2,
     POOL_exectask (task_fn A) (task_args A) e p = Ret true p1 /\
     POOL_exectask (task_fn B) (task_args B) e p1 = Ret true p2 /\
     POOL_exectask (task_fn C) (task_args C) e p2 = Ret true p3 /\
     await_and_do_tasks_iteration ew p3 = Ret (W_call C) q1 /\
     await_and_do_tasks_iteration ew q1 = Ret (W_call B) q2 /\
     await_and_do_tasks_iteration ew q2 = Ret (W_call A) p) /\
  (forall t, exists p1,
     POOL_exectask (task_fn t) (task_args t) e p = Ret true p1 /\
     await_and_do_tasks_iteration ew p1 = Ret (W_call t) p).
Proof.
  intros He Hw Hm Hs.
  destruct p as [pm ts0 nt nr th sd]; simpl in *; subst.
  split; [|split].
  - intros ts. eexists. split; [by apply submit_all_accepted|].
    rewrite <- length_rev.
    by rewrite (iterate_worker_pops ew (rev ts) ts0).
  - intros [fa aa] [fb ab] [fc ac]; simpl.
    do 5 eexists.
    split; [by apply POOL_exectask_accepts|].
    split; [by apply POOL_exectask_accepts|].
    split; [by apply POOL_exectask_accepts|].
    split; [by eapply iteration_pops|].
    split; [by eapply iteration_pops|].
    by erewrite iteration_pops.
  - intros [ft at']; simpl. eexists.
    split; [by apply POOL_exectask_accepts|].
    by erewrite iteration_pops.
Qed.

Lemma task_stack_is_LIFO_witness :
  exists p1,
    submit_all [mkTask 1 10; mkTask 2 20; mkTask 3 30] example_env open_pool
      = Ret [true; true; true] p1 /\
    iterate_worker 3 worker_env p1
      = Ret [W_call (mkTask 3 30); W_call (mkTask 2 20); W_call (mkTask 1 10)]
            open_pool.
Proof.
  destruct (task_stack_is_LIFO example_env worker_env open_pool) as [H _];
    [by split | by split | reflexivity | reflexivity |].
  exact (H [mkTask 1 10; mkTask 2 20; mkTask 3 30]).
Defined.

(** ** Creation *)

(** C6. [POOL_create(pool, n)] establishes the initial state whatever
    [pool] held before: the task stack is empty, the shutdown flag is
    clear, the thread count and the running counter are both [n], the mutex
    is free, and [n] threads have been spawned (one handle each), all at
    the top of the worker loop. *)
Theorem POOL_create_initial_state (uninit : Threadpool) (n : Z) :
  is_size_t n ->
  forall p spawned, POOL_create uninit n = (p, spawned) ->
  task_stack p = [] /\
  is_shutdown p = false /\
  num_threads p = n /\
  num_threads_running p = n /\
  pool_mutex p = Unlocked /\
  Z.of_nat (length spawned) = n /\
  (forall i, (i < length spawned)%nat -> spawned !! i = Some W_loop) /\
  (exists handles, threads p = Some handles /\ Z.of_nat (length handles) = n).
Proof.
  intros [Hn _] p spawned. rewrite POOL_create_spec.
  intros H; inversion H; subst; clear H; simpl.
  repeat split; try done.
  - rewrite length_replicate. lia.
  - intros i Hi. rewrite length_replicate in Hi.
    by apply lookup_replicate_2.
  - eexists; split; [done|]. rewrite length_map, length_seq. lia.
Qed.

Lemma POOL_create_initial_state_witness :
  let p := fst (POOL_create closing_pool 2) in
  let spawned := snd (POOL_create closing_pool 2) in
  task_stack p = [] /\
  is_shutdown p = false /\
  num_threads p = 2 /\
  num_threads_running p = 2 /\
  pool_mutex p = Unlocked /\
  Z.of_nat (length spawned) = 2 /\
  (forall i, (i < length spawned)%nat -> spawned !! i = Some W_loop) /\
  (exists handles, threads p = Some handles /\ Z.of_nat (length handles) = 2).
Proof.
  apply (POOL_create_initial_state closing_pool 2);
    [unfold is_size_t, SIZE_WIDTH; lia | reflexivity].
Defined.

(** ** Failing mutex calls *)

Lemma exited_takes_no_step (s : System) (ev : event) :
  status s <> None -> step ev s = None.
Proof. unfold step. by destruct (status s). Qed.

Lemma after_status {A} (s s' : System) (o : outcome A) k :
  (forall a p', status (k a p') = None) ->
  (forall st p', o = Exit st p' -> st = 1) ->
  after s o k = Some s' -> status s' = None \/ status s' = Some 1.
Proof.
  intros Hk Hst. destruct o as [a p'|st p'|]; simpl; intros H; inversion H.
  - left. apply Hk.
  - right. simpl. f_equal. by eapply Hst.
Qed.

Lemma step_status (s s' : System) (ev : event) :
  step ev s = Some s' -> status s' = None \/ status s' = Some 1.
Proof.
  unfold step. destruct (status s); [done|].
  destruct (ev_action ev) as [c work| |i].
  - apply after_status; [by intros []|].
    intros st p' H. by apply POOL_exectask_Exit in H as [? _].
  - destruct (destroyer s) eqn:Hd; try done.
    all: apply after_status; [done|].
    all: intros st p' H; by apply destroy_Exit in H as [? _].
  - destruct (workers s !! i) as [[|work|]|]; try done.
    + apply after_status; [done|].
      intros st p' H. by apply iteration_Exit in H as [? _].
    + intros H; inversion H. by left.
Qed.

(** C9. A failed mutex call ends the process at once with status 1.
    (1) When [pthread_mutex_lock] fails, [POOL_exectask], a turn of the
    worker loop and each critical section of [POOL_destroy] exit with
    status 1 and the pool untouched. (2) When [pthread_mutex_unlock] fails,
    each of them exits with status 1 at that call, the mutex still held.
    (3) In the running process, a thread whose lock call fails ends the
    process with status 1 in that very step. (4) A step of the process ends
    it with no other status than 1, and a process that has exited takes no
    further step. [POOL_create] makes no mutex call. *)
Theorem mutex_failure_exits (e : Env) (p : Threadpool) (fn args : Z) :
  (lock_rc e <> 0 ->
   POOL_exectask fn args e p = Exit 1 p /\
   await_and_do_tasks_iteration e p = Exit 1 p /\
   POOL_destroy_step D_entry e p = Exit 1 p /\
   POOL_destroy_step D_wait_stack e p = Exit 1 p /\
   POOL_destroy_step D_wait_running e p = Exit 1 p) /\
  (lock_rc e = 0 -> unlock_rc e <> 0 -> pool_mutex p = Unlocked ->
   (is_shutdown p = false ->
    exists p', POOL_exectask fn args e p = Exit 1 p' /\
               pool_mutex p' = Locked (self e)) /\
   (exists p', await_and_do_tasks_iteration e p = Exit 1 p' /\
               pool_mutex p' = Locked (self e)) /\
   (forall pc, pc = D_entry \/ pc = D_wait_stack \/ pc = D_wait_running ->
    exists p', POOL_destroy_step pc e p = Exit 1 p' /\
               pool_mutex p' = Locked (self e))) /\
  (forall s ev, status s = None -> takes_mutex (ev_action ev) s ->
     ev_lock_rc ev <> 0 -> step ev s = Some (exited 1 s)) /\
  (forall s ev s', step ev s = Some s' ->
     (status s' = None \/ status s' = Some 1) /\
     (status s' <> None -> forall ev', step ev' s' = None)).
Proof.
  split; [|split; [|split]]; cycle 2.
  { intros [[pm ts nt nr th sd] d ws acc ex st] [a lrc urc] Hs Ha Hl.
    simpl in *. subst. apply Z.eqb_neq in Hl.
    unfold step, exited. simpl. destruct a as [c work| |i]; simpl in Ha.
    - run_prog. rcs. reflexivity.
    - destruct Ha as [-> |[-> | ->]]; run_prog; rcs; reflexivity.
    - rewrite Ha. run_prog. rcs. reflexivity. }
  { intros s ev s' Hstep. split.
    + by eapply step_status.
    + intros Hs ev'. by apply exited_takes_no_step. }
  - intros Hl. apply Z.eqb_neq in Hl.
    open_records p e. run_prog. rcs. done.
  - intros Hl Hu Hm. apply Z.eqb_neq in Hu.
    open_records p e. split; [|split].
    + intros ->. run_prog. rcs. eauto.
    + run_prog. destruct sd, ts; rcs; eauto.
    + intros pc [->|[->| ->]]; run_prog; rcs; eauto.
Qed.

Lemma mutex_failure_exits_witness :
  POOL_exectask 7 9 failing_env open_pool = Exit 1 open_pool /\
  await_and_do_tasks_iteration failing_env open_pool = Exit 1 open_pool /\
  POOL_destroy_step D_entry failing_env open_pool = Exit 1 open_pool /\
  POOL_destroy_step D_wait_stack failing_env open_pool = Exit 1 open_pool /\
  POOL_destroy_step D_wait_running failing_env open_pool = Exit 1 open_pool.
Proof.
  destruct (mutex_failure_exits failing_env open_pool 7 9) as [H _].
  apply H. simpl. lia.
Defined.

(** ** What is stored is what is called *)

(** C10. [POOL_exectask] checks neither its callable nor its argument. On
    a pool that is not shutting down the call succeeds for every [fn] and
    [args], the null pointer included, and the head of the stack then holds
    exactly [fn] and [args]. In the running process the worker that takes
    its next turn pops that record and then calls [fn] with [args]: the
    call is the next entry of [executed]. *)
Theorem POOL_exectask_stores_what_it_is_given
    (s : System) (c i : nat) (fn args : Z) :
  status s = None ->
  pool_mutex (pool s) = Unlocked ->
  is_shutdown (pool s) = false ->
  workers s !! i = Some W_loop ->
  (exists p',
     POOL_exectask fn args (env_of (ok (Submit c (mkTask fn args)))) (pool s)
       = Ret true p' /\
     exists work, head (task_stack p') = Some work /\
                  task_fn work = fn /\ task_args work = args) /\
  (exists p',
     POOL_exectask NULL args (env_of (ok (Submit c (mkTask NULL args)))) (pool s)
       = Ret true p' /\
     head (task_stack p') = Some (mkTask NULL args)) /\
  (exists s1 s2 s3,
     step (ok (Submit c (mkTask fn args))) s = Some s1 /\
     accepted s1 = accepted s ++ [mkTask fn args] /\
     step (ok (Run i)) s1 = Some s2 /\
     workers s2 !! i = Some (W_call (mkTask fn args)) /\
     step (ok (Run i)) s2 = Some s3 /\
     executed s3 = executed s ++ [mkTask fn args] /\
     pool s3 = pool s).
Proof.
  intros Hst Hm Hs Hw. split; [|split].
  - rewrite POOL_exectask_accepts by done.
    eexists; split; [done|]. by eexists.
  - rewrite POOL_exectask_accepts by done.
    by eexists.
  - assert (Hlen : (i < length (workers s))%nat) by by eapply lookup_lt_Some.
    do 3 eexists.
    split; [by apply step_submit_accepted|]. split; [done|].
    split; [by eapply step_run_pops|].
    split; [by apply list_lookup_insert_eq|].
    split; [eapply step_run_calls; try done; by apply list_lookup_insert_eq|].
    split; [done|]. by destruct s as [[] ?].
Qed.

Lemma POOL_exectask_stores_what_it_is_given_witness :
  exists s1 s2 s3,
    step (ok (Submit 0 (mkTask NULL 9))) two_workers = Some s1 /\
    accepted s1 = accepted two_workers ++ [mkTask NULL 9] /\
    step (ok (Run 1)) s1 = Some s2 /\
    workers s2 !! 1%nat = Some (W_call (mkTask NULL 9)) /\
    step (ok (Run 1)) s2 = Some s3 /\
    executed s3 = executed two_workers ++ [mkTask NULL 9] /\
    pool s3 = pool two_workers.
Proof.
  destruct (POOL_exectask_stores_what_it_is_given two_workers 0 1 NULL 9)
    as (_ & _ & H); [reflexivity..|exact H].
Defined.

(* ===================================================================== *)
(** * Part 4: invariants of the running process                           *)
(* ===================================================================== *)

(** ** Counting workers and the tasks they hold *)

Section Workers.

Implicit Types (ws : list worker_pc) (w : worker_pc) (i : nat).

Lemma count_alive_le_length ws : (count_alive ws <= length ws)%nat.
Proof. induction ws as [|w ws IH]; simpl; [lia|]. destruct (alive w); lia. Qed.

Lemma count_alive_replicate k : count_alive (replicate k W_loop) = k.
Proof. induction k as [|k IH]; simpl; [done|]. by rewrite IH. Qed.

Lemma in_flight_replicate k : in_flight (replicate k W_loop) = [].
Proof. induction k as [|k IH]; simpl; [done|]. exact IH. Qed.

Lemma count_alive_insert ws i w w' :
  ws !! i = Some w ->
  (count_alive (<[i:=w']> ws) + (if alive w then 1 else 0)
   = count_alive ws + (if alive w' then 1 else 0))%nat.
Proof.
  revert i. induction ws as [|x ws IH]; intros [|i] H; simpl in *; try done.
  - inversion H; subst. lia.
  - specialize (IH i H). lia.
Qed.

Lemma in_flight_insert ws i w w' :
  ws !! i = Some w ->
  in_flight (<[i:=w']> ws) ++ holding w ≡ₚ in_flight ws ++ holding w'.
Proof.
  unfold in_flight.
  revert i. induction ws as [|x ws IH]; intros [|i] H; simpl in *; try done.
  - inversion H; subst.
    rewrite <- !app_assoc. rewrite (Permutation_app_comm (concat _) (holding w)).
    rewrite (Permutation_app_comm (concat _) (holding w')).
    rewrite !app_assoc. f_equiv. apply Permutation_app_comm.
  - rewrite <- !app_assoc. f_equiv. by apply IH.
Qed.

Lemma in_flight_same ws i w w' :
  ws !! i = Some w -> holding w = [] -> holding w' = [] ->
  in_flight (<[i:=w']> ws) = in_flight ws.
Proof.
  unfold in_flight.
  revert i. induction ws as [|x ws IH]; intros [|i] H Hw Hw'; simpl in *;
    try done.
  - inversion H; subst. by rewrite Hw, Hw'.
  - f_equal. by apply IH.
Qed.

Lemma in_flight_pop ws i work :
  ws !! i = Some W_loop ->
  in_flight (<[i:=W_call work]> ws) ≡ₚ work :: in_flight ws.
Proof.
  intros H. pose proof (in_flight_insert ws i _ (W_call work) H) as Hp.
  simpl in Hp. rewrite app_nil_r in Hp. rewrite Hp.
  symmetry. apply Permutation_cons_append.
Qed.

Lemma in_flight_call ws i work :
  ws !! i = Some (W_call work) ->
  in_flight ws ≡ₚ work :: in_flight (<[i:=W_loop]> ws).
Proof.
  intros H. pose proof (in_flight_insert ws i _ W_loop H) as Hp.
  simpl in Hp. rewrite app_nil_r in Hp. rewrite <- Hp.
  symmetry. apply Permutation_cons_append.
Qed.

Lemma count_alive_0_in_flight ws : count_alive ws = O -> in_flight ws = [].
Proof.
  unfold in_flight. induction ws as [|w ws IH]; simpl; [done|].
  destruct w; simpl; try lia. exact IH.
Qed.

Lemma count_alive_0_lookup ws i w :
  count_alive ws = O -> ws !! i = Some w -> w = W_returned.
Proof.
  revert i. induction ws as [|x ws IH]; intros [|i]; simpl; try done.
  - destruct x; simpl; try lia. by intros _ [= <-].
  - destruct (alive x); [lia|]. simpl. apply IH.
Qed.

Lemma count_alive_pos_lookup ws :
  (0 < count_alive ws)%nat ->
  exists i w, ws !! i = Some w /\ alive w = true.
Proof.
  induction ws as [|x ws IH]; simpl; [lia|].
  destruct (alive x) eqn:Hx.
  - intros _. by exists O, x.
  - simpl. intros H. destruct (IH H) as (i & w & Hi & Hw).
    by exists (S i), w.
Qed.

Lemma alive_lookup_count ws i w :
  ws !! i = Some w -> alive w = true -> (0 < count_alive ws)%nat.
Proof.
  revert i. induction ws as [|x ws IH]; intros [|i]; simpl; try done.
  - intros [= ->] ->. lia.
  - intros H Hw. specialize (IH i H Hw). lia.
Qed.

End Workers.

(** ** The invariant holds at creation and is kept by every step *)

Lemma Inv_boot (uninit : Threadpool) (n : Z) :
  is_size_t n -> Inv n (boot uninit n).
Proof.
  intros [Hn _]. unfold boot. rewrite POOL_create_spec.
  constructor; simpl; try done.
  - rewrite length_replicate. lia.
  - by rewrite count_alive_replicate, Z2Nat.id.
  - by rewrite in_flight_replicate.
  - intros [H|H]; discriminate.
  - rewrite count_alive_replicate, length_replicate. lia.
Qed.

Ltac inv_field :=
  simpl in *; try done; try tauto;
  try (intros; simplify_eq; intuition (eauto; congruence)).

Lemma Inv_step (n : Z) (s s' : System) (ev : event) :
  is_size_t n -> Inv n s -> step ev s = Some s' -> status s' = None ->
  Inv n s'.
Proof.
  intros Hn HI Hstep Hst'.
  destruct s as [p d ws acc ex st]. destruct ev as [a lrc urc].
  destruct HI as [I1 I2 I3 I4 I5 I6 I7 I8 I9 I10 I11 I12]; simpl in *.
  unfold step in Hstep; simpl in Hstep.
  destruct st; [done|].
  destruct a as [c work| |i].
  - destruct (POOL_exectask _ _ _ p) as [b p'|st p'|] eqn:Hx;
      simpl in Hstep; inversion Hstep; subst; simpl in *; try done.
    apply POOL_exectask_Ret in Hx as [Hm [(-> & Hs & ->)|(-> & Hs & ->)]];
      destruct p as [pm ts nt nr th sd]; simpl in *; subst.
    + constructor; inv_field.
    + constructor; inv_field.
      rewrite task_eta, I6. symmetry. apply Permutation_cons_append.
  - destruct d; try done.
    1-3: destruct (POOL_destroy_step _ _ p) as [pc' p'|st p'|] eqn:Hx;
      simpl in Hstep; inversion Hstep; subst; simpl in *; try done.
    1-3: apply destroy_Ret in Hx; simpl in Hx.
    all: destruct p as [pm ts nt nr th sd]; simpl in *.
    + destruct Hx as (-> & -> & ->). constructor; inv_field.
    + destruct Hx as (-> & -> & [[-> ->]|[Hts ->]]); constructor; inv_field.
    + destruct Hx as (-> & -> & [[Hr ->]|[Hr ->]]); constructor; inv_field.
    + inversion Hstep; subst. constructor; inv_field.
  - destruct (ws !! i) as [[|work|]|] eqn:Hw; try done.
    + destruct (await_and_do_tasks_iteration _ p) as [w p'|st p'|] eqn:Hx;
        simpl in Hstep; inversion Hstep; subst; simpl in *; try done.
      apply iteration_Ret in Hx as
        [Hm [(-> & Hs & Hts & ->)|[(wk & next & -> & Hts & ->)|(-> & Hs & Hts & ->)]]];
        destruct p as [pm ts nt nr th sd]; simpl in *; subst.
      * pose proof (count_alive_insert ws i _ W_returned Hw) as Hc.
        pose proof (count_alive_le_length ws) as Hle.
        pose proof (in_flight_same ws i _ W_returned Hw eq_refl eq_refl) as Hf.
        assert (Hwrap : size_wrap (Z.of_nat (count_alive ws) - 1)
                        = Z.of_nat (count_alive (<[i:=W_returned]> ws))).
        { unfold size_wrap, is_size_t in *. simpl in Hc.
          rewrite Z.mod_small; lia. }
        constructor; inv_field; rewrite ?length_insert, ?Hf, ?Hwrap; try done.
        -- intros Hd. apply I8 in Hd. simpl in Hc. lia.
      * pose proof (count_alive_insert ws i _ (W_call wk) Hw) as Hc.
        pose proof (in_flight_pop ws i wk Hw) as Hf.
        constructor; inv_field; rewrite ?length_insert; try done.
        -- lia.
        -- rewrite I6, Hf. simpl. apply Permutation_middle.
        -- intros H. destruct I12; [lia|done].
      * pose proof (count_alive_insert ws i _ W_loop Hw) as Hc.
        pose proof (in_flight_same ws i _ W_loop Hw eq_refl eq_refl) as Hf.
        constructor; inv_field; rewrite ?length_insert, ?Hf; try done.
        -- lia.
        -- intros H. apply I12. lia.
    + inversion Hstep; subst; clear Hstep.
      pose proof (count_alive_insert ws i _ W_loop Hw) as Hc.
      pose proof (in_flight_call ws i work Hw) as Hf.
      destruct p as [pm ts nt nr th sd]; simpl in *.
      constructor; inv_field; rewrite ?length_insert; try done.
      -- lia.
      -- rewrite I6, Hf. rewrite (Permutation_app_comm ex [work]). simpl.
         by rewrite Permutation_middle.
      -- intros H. apply I12. lia.
Qed.

Lemma run_status (evs : list event) (s s' : System) :
  run evs s = Some s' -> status s' = None -> status s = None.
Proof.
  revert s. induction evs as [|ev evs IH]; intros s; simpl.
  - by intros [= ->].
  - destruct (step ev s) as [s1|] eqn:Hstep; [|done].
    intros Hrun Hs'. unfold step in Hstep. by destruct (status s).
Qed.

Lemma Inv_run (n : Z) (evs : list event) (s s' : System) :
  is_size_t n -> Inv n s -> run evs s = Some s' -> status s' = None ->
  Inv n s'.
Proof.
  intros Hn. revert s. induction evs as [|ev evs IH]; intros s HI; simpl.
  - by intros [= ->].
  - destruct (step ev s) as [s1|] eqn:Hstep; [|done].
    intros Hrun Hs'. apply (IH s1); try done.
    eapply Inv_step; try done. by eapply run_status.
Qed.

Lemma Inv_reachable (n : Z) (s : System) :
  is_size_t n -> reachable n s -> status s = None -> Inv n s.
Proof.
  intros Hn (uninit & evs & Hrun) Hs.
  eapply Inv_run; try done. by apply Inv_boot.
Qed.

Lemma count_alive_returned (ws : list worker_pc) :
  (count_alive ws + count_returned ws)%nat = length ws.
Proof. induction ws as [|w ws IH]; simpl; [done|]. destruct (alive w); lia. Qed.

Lemma sample_mid_reachable : reachable 2 sample_mid.
Proof. exists closing_pool, (firstn 5 sample_run). reflexivity. Qed.

Lemma sample_end_reachable : reachable 2 sample_end.
Proof. exists closing_pool, sample_run. reflexivity. Qed.

Lemma two_workers_reachable : reachable 2 two_workers.
Proof. exists closing_pool, []. reflexivity. Qed.

Lemma is_size_t_2 : is_size_t 2.
Proof. unfold is_size_t, SIZE_WIDTH. lia. Qed.

(** ** How the workers change in a step *)

Lemma step_workers (ev : event) (s s' : System) :
  step ev s = Some s' -> status s' = None ->
  (workers s' = workers s /\ forall i, ev_action ev <> Run i) \/
  exists i w w',
    ev_action ev = Run i /\ workers s !! i = Some w /\
    workers s' = <[i:=w']> (workers s) /\
    ((w = W_loop /\ w' = W_returned /\
      is_shutdown (pool s) = true /\ task_stack (pool s) = []) \/
     (w = W_loop /\ w' = W_loop) \/
     (w = W_loop /\ exists work, w' = W_call work) \/
     (w' = W_loop /\ exists work, w = W_call work)).
Proof.
  intros Hstep Hst'.
  destruct s as [p d ws acc ex st]. destruct ev as [a lrc urc].
  unfold step in Hstep; simpl in *.
  destruct st; [done|].
  destruct a as [c work| |i].
  - left. split; [|done].
    destruct (POOL_exectask _ _ _ p) as [b p'|st p'|];
      simpl in Hstep; inversion Hstep; subst; simpl in *; done.
  - left. split; [|done]. destruct d; try done.
    1-3: destruct (POOL_destroy_step _ _ p) as [pc' p'|st p'|];
      simpl in Hstep; inversion Hstep; subst; simpl in *; done.
    by inversion Hstep.
  - right. destruct (ws !! i) as [[|work|]|] eqn:Hw; try done.
    + destruct (await_and_do_tasks_iteration _ p) as [w p'|st p'|] eqn:Hx;
        simpl in Hstep; inversion Hstep; subst; simpl in *; try done.
      exists i, W_loop, w. repeat split; try done.
      apply iteration_Ret in Hx as
        [Hm [(-> & Hs & Hts & ->)|[(wk & next & -> & Hts & ->)|(-> & Hs & Hts & ->)]]];
        eauto 10.
    + inversion Hstep; subst; simpl.
      exists i, (W_call work), W_loop. eauto 10.
Qed.

(** ** The worker loop *)

(** C4. One turn of the worker loop, run on a pool whose mutex it can
    take. (1) With the shutdown flag set and the stack empty, it takes one
    off the running counter (in [size_t] arithmetic, which is one less
    whenever the counter is positive) and the thread returns. (2) With a
    non-empty stack it takes exactly the head and leaves the rest, and the
    counter, as they were. (3) With an empty stack and the flag clear it
    takes nothing and changes nothing. (4) The thread returns only when the
    flag is set and the stack is empty. (5) A returned worker takes no
    further step. (6) In a process started by [POOL_create], a worker that
    returns lowers the counter by exactly one. *)
Theorem worker_iteration_cases (e : Env) (p : Threadpool) :
  calls_succeed e -> pool_mutex p = Unlocked ->
  (is_shutdown p = true -> task_stack p = [] ->
   exists p', await_and_do_tasks_iteration e p = Ret W_returned p' /\
              num_threads_running p' = size_wrap (num_threads_running p - 1) /\
              (0 < num_threads_running p < 2 ^ SIZE_WIDTH ->
               num_threads_running p' = num_threads_running p - 1) /\
              task_stack p' = [] /\ pool_mutex p' = Unlocked) /\
  (forall work next, task_stack p = work :: next ->
   exists p', await_and_do_tasks_iteration e p = Ret (W_call work) p' /\
              task_stack p' = next /\
              num_threads_running p' = num_threads_running p /\
              pool_mutex p' = Unlocked) /\
  (is_shutdown p = false -> task_stack p = [] ->
   await_and_do_tasks_iteration e p = Ret W_loop p) /\
  (forall p', await_and_do_tasks_iteration e p = Ret W_returned p' ->
              is_shutdown p = true /\ task_stack p = []) /\
  (forall s ev i, ev_action ev = Run i -> workers s !! i = Some W_returned ->
                  step ev s = None) /\
  (forall n s ev i s',
     is_size_t n -> reachable n s -> ev_action ev = Run i ->
     step ev s = Some s' -> status s' = None ->
     workers s' !! i = Some W_returned ->
     num_threads_running (pool s') = num_threads_running (pool s) - 1 /\
     is_shutdown (pool s) = true /\ task_stack (pool s) = []).
Proof.
  intros He Hm. repeat apply conj.
  - intros Hs Hts. rewrite iteration_returns by done.
    eexists; split; [done|]. destruct p; simpl in *.
    repeat split; try done.
    intros Hr. unfold size_wrap. rewrite Z.mod_small; lia.
  - intros work next Hts. erewrite iteration_pops by done.
    eexists; split; [done|]. by destruct p.
  - intros Hs Hts. by apply iteration_yields.
  - intros p' H.
    apply iteration_Ret in H as
      [_ [(_ & Hs & Hts & _)|[(wk & next & [=] & _)|([=] & _)]]].
    done.
  - intros s ev i. apply step_run_returned.
  - intros n s ev i s' Hn Hr Hev Hstep Hst' Hw'.
    assert (Hst : status s = None).
    { unfold step in Hstep. by destruct (status s). }
    pose proof (Inv_reachable n s Hn Hr Hst) as HI.
    pose proof (Inv_step n s s' ev Hn HI Hstep Hst') as HI'.
    destruct (step_workers ev s s' Hstep Hst')
      as [[_ Hne]|(j & w & w' & Hj & Hw & Hws & Hcases)].
    { by destruct (Hne i). }
    rewrite Hev in Hj. injection Hj as <-.
    assert (Hlen : (i < length (workers s))%nat) by by eapply lookup_lt_Some.
    rewrite Hws, list_lookup_insert_eq in Hw' by done.
    injection Hw' as ->.
    destruct Hcases as [(-> & _ & Hs & Hts)|[[_ [=]]|[[_ [? [=]]]|[[=] _]]]].
    split; [|done].
    rewrite (inv_running _ _ HI), (inv_running _ _ HI'), Hws.
    pose proof (count_alive_insert (workers s) i _ W_returned Hw) as Hc.
    simpl in Hc. lia.
Qed.

Lemma worker_iteration_cases_witness :
  exists p', await_and_do_tasks_iteration worker_env open_pool
               = Ret (W_call (mkTask 5 6)) p' /\
             task_stack p' = [] /\
             num_threads_running p' = num_threads_running open_pool /\
             pool_mutex p' = Unlocked.
Proof.
  destruct (worker_iteration_cases worker_env open_pool) as (_ & H & _);
    [by split | reflexivity | exact (H (mkTask 5 6) [] eq_refl)].
Defined.

(** ** Destruction *)

(** C5. [POOL_destroy] in a process started by [POOL_create], as long as
    the process has not exited. (1) Its steps come in this order: the first
    sets the shutdown flag; the first loop is left only on seeing the stack
    empty; the second loop is left only on seeing the running counter at
    zero; the teardown then destroys the mutex and frees the handles, and
    the function returns. (2) No other thread moves it forward. (3) The
    flag is set from its first step on. (4) Until it has returned the mutex
    is not destroyed and the handles are not freed. (5) Before the
    teardown and on return the stack is empty and the counter is zero; on
    return the flag is set. *)
Theorem POOL_destroy_protocol (n : Z) (s : System) :
  is_size_t n -> reachable n s -> status s = None ->
  (forall ev s', ev_action ev = Destroy -> step ev s = Some s' ->
     status s' = None ->
     match destroyer s with
     | D_entry =>
         destroyer s' = D_wait_stack /\ pool s' = set_is_shutdown true (pool s)
     | D_wait_stack =>
         pool s' = pool s /\
         ((task_stack (pool s) = [] /\ destroyer s' = D_wait_running) \/
          (task_stack (pool s) <> [] /\ destroyer s' = D_wait_stack))
     | D_wait_running =>
         pool s' = pool s /\
         ((num_threads_running (pool s) = 0 /\ destroyer s' = D_teardown) \/
          (num_threads_running (pool s) <> 0 /\ destroyer s' = D_wait_running))
     | D_teardown =>
         destroyer s' = D_returned /\
         pool s' = set_threads None (set_pool_mutex Destroyed (pool s))
     | D_returned => False
     end) /\
  (forall ev s', ev_action ev <> Destroy -> step ev s = Some s' ->
     destroyer s' = destroyer s) /\
  (destroyer s <> D_entry -> is_shutdown (pool s) = true) /\
  (destroyer s <> D_returned ->
     pool_mutex (pool s) <> Destroyed /\ threads (pool s) <> None) /\
  (destroyer s = D_teardown \/ destroyer s = D_returned ->
     task_stack (pool s) = [] /\ num_threads_running (pool s) = 0 /\
     count_alive (workers s) = O) /\
  (destroyer s = D_returned ->
     is_shutdown (pool s) = true /\ task_stack (pool s) = [] /\
     num_threads_running (pool s) = 0 /\
     pool_mutex (pool s) = Destroyed /\ threads (pool s) = None).
Proof.
  intros Hn Hr Hst. pose proof (Inv_reachable n s Hn Hr Hst) as HI.
  repeat apply conj.
  - intros [a lrc urc] s' Hev Hstep Hst'. simpl in Hev. subst a.
    unfold step in Hstep. rewrite Hst in Hstep. simpl in Hstep.
    destruct (destroyer s); try done.
    1-3: destruct (POOL_destroy_step _ _ (pool s)) as [pc' p'|st p'|] eqn:Hx;
      simpl in Hstep; inversion Hstep; subst; simpl in *; try done.
    1-3: apply destroy_Ret in Hx; simpl in Hx; tauto.
    by inversion Hstep.
  - intros [a lrc urc] s' Hev Hstep. simpl in Hev.
    unfold step in Hstep. rewrite Hst in Hstep. simpl in Hstep.
    destruct a as [c work| |i]; [|done|].
    + destruct (POOL_exectask _ _ _ (pool s)) as [b p'|st p'|];
        simpl in Hstep; by inversion Hstep.
    + destruct (workers s !! i) as [[|work|]|]; try done.
      * destruct (await_and_do_tasks_iteration _ (pool s)) as [w p'|st p'|];
          simpl in Hstep; by inversion Hstep.
      * by inversion Hstep.
  - apply (inv_shutdown _ _ HI).
  - intros Hd. split.
    + intros Hm. by apply (inv_mutex _ _ HI) in Hm.
    + intros Hm. by apply (inv_handles _ _ HI) in Hm.
  - intros Hd.
    assert (Hz : num_threads_running (pool s) = 0)
      by (apply (inv_stopped _ _ HI); tauto).
    split; [apply (inv_drained _ _ HI); tauto|]. split; [done|].
    rewrite (inv_running _ _ HI) in Hz. lia.
  - intros Hd. repeat split.
    + apply (inv_shutdown _ _ HI). by rewrite Hd.
    + apply (inv_drained _ _ HI). tauto.
    + apply (inv_stopped _ _ HI). tauto.
    + by apply (inv_mutex _ _ HI).
    + by apply (inv_handles _ _ HI).
Qed.

Lemma POOL_destroy_protocol_witness :
  is_shutdown (pool sample_end) = true /\ task_stack (pool sample_end) = [] /\
  num_threads_running (pool sample_end) = 0 /\
  pool_mutex (pool sample_end) = Destroyed /\
  threads (pool sample_end) = None.
Proof.
  destruct (POOL_destroy_protocol 2 sample_end) as (_ & _ & _ & _ & _ & H);
    [exact is_size_t_2 | exact sample_end_reachable | reflexivity
    | exact (H eq_refl)].
Defined.

(** ** The running counter *)

Lemma POOL_exectask_Exit_running (e : Env) (p : Threadpool) fn args st p' :
  POOL_exectask fn args e p = Exit st p' ->
  num_threads_running p' = num_threads_running p.
Proof.
  open_records p e. run_prog. split_rcs lrc urc.
  all: destruct pm; rcs; try discriminate.
  all: try destruct sd; rcs; try discriminate.
  all: by intros [= _ <-].
Qed.

Lemma destroy_Exit_running (pc : destroy_pc) (e : Env) (p : Threadpool) st p' :
  POOL_destroy_step pc e p = Exit st p' ->
  num_threads_running p' = num_threads_running p.
Proof.
  open_records p e. destruct pc; run_prog.
  all: split_rcs lrc urc; try discriminate.
  all: destruct pm; rcs; try discriminate.
  all: try (destruct ts; rcs; try discriminate).
  all: try (destruct (nr =? 0); rcs; try discriminate).
  all: by intros [= _ <-].
Qed.

Lemma iteration_Exit_running (e : Env) (p : Threadpool) st p' :
  await_and_do_tasks_iteration e p = Exit st p' ->
  num_threads_running p' = num_threads_running p \/
  num_threads_running p' = size_wrap (num_threads_running p - 1).
Proof.
  open_records p e. run_prog. split_rcs lrc urc.
  all: destruct pm; rcs; try discriminate.
  all: try (destruct sd, ts as [|work next]; rcs; try discriminate).
  all: intros [= _ <-]; simpl; auto.
Qed.

Lemma step_running_le (n : Z) (s s' : System) (ev : event) :
  is_size_t n -> reachable n s -> step ev s = Some s' ->
  num_threads_running (pool s') <= num_threads_running (pool s).
Proof.
  intros Hn Hr Hstep.
  assert (Hst : status s = None).
  { unfold step in Hstep. by destruct (status s). }
  pose proof (Inv_reachable n s Hn Hr Hst) as HI.
  destruct (status s') as [st'|] eqn:Hst'.
  - destruct s as [p d ws acc ex st]. destruct ev as [a lrc urc].
    unfold step in Hstep. simpl in *. subst st.
    destruct a as [c work| |i].
    + destruct (POOL_exectask _ _ _ p) as [b p'|st p'|] eqn:Hx;
        simpl in Hstep; inversion Hstep; subst; simpl in *; try done.
      apply POOL_exectask_Exit_running in Hx. lia.
    + destruct d; try done.
      1-3: destruct (POOL_destroy_step _ _ p) as [pc' p'|st p'|] eqn:Hx;
        simpl in Hstep; inversion Hstep; subst; simpl in *; try done.
      1-3: apply destroy_Exit_running in Hx; lia.
      inversion Hstep; subst. done.
    + destruct (ws !! i) as [[|work|]|] eqn:Hw; try done.
      * destruct (await_and_do_tasks_iteration _ p) as [w p'|st p'|] eqn:Hx;
          simpl in Hstep; inversion Hstep; subst; simpl in *; try done.
        apply iteration_Exit_running in Hx as [->| ->]; [lia|].
        pose proof (inv_running _ _ HI) as Hrun. simpl in Hrun.
        pose proof (alive_lookup_count ws i W_loop Hw eq_refl).
        pose proof (count_alive_le_length ws).
        pose proof (inv_workers _ _ HI) as Hlen. simpl in Hlen.
        unfold size_wrap, is_size_t in *. rewrite Z.mod_small; lia.
      * inversion Hstep; subst. done.
  - pose proof (Inv_step n s s' ev Hn HI Hstep Hst') as HI'.
    rewrite (inv_running _ _ HI), (inv_running _ _ HI').
    destruct (step_workers ev s s' Hstep Hst')
      as [[-> _]|(j & w & w' & Hj & Hw & -> & Hcases)]; [lia|].
    pose proof (count_alive_insert (workers s) j _ w' Hw) as Hc.
    destruct Hcases as [(-> & -> & _)|[[-> ->]|[[-> [? ->]]|[-> [? ->]]]]];
      simpl in Hc; lia.
Qed.

(** C7. The running counter never goes up. In a process started by
    [POOL_create(pool, n)]: (1) the counter starts at [n]; (2) at any time
    it is [n] less the number of workers that have returned; (3) no step of
    any thread raises it, not even a step that ends the process; (4) a step
    either is a worker returning from the top of its loop, which lowers the
    counter by exactly one, or leaves the counter and the number of
    returned workers as they were; (5) a returned worker takes no further
    step, so it lowers the counter once. *)
Theorem running_counter_only_falls (n : Z) :
  is_size_t n ->
  (forall uninit, num_threads_running (pool (boot uninit n)) = n) /\
  (forall s, reachable n s -> status s = None ->
     num_threads_running (pool s)
       = n - Z.of_nat (count_returned (workers s))) /\
  (forall s ev s', reachable n s -> step ev s = Some s' ->
     num_threads_running (pool s') <= num_threads_running (pool s)) /\
  (forall s ev s', reachable n s -> step ev s = Some s' -> status s' = None ->
     (num_threads_running (pool s') = num_threads_running (pool s) - 1 /\
      count_returned (workers s') = S (count_returned (workers s)) /\
      exists i, ev_action ev = Run i /\ workers s !! i = Some W_loop /\
                workers s' !! i = Some W_returned) \/
     (num_threads_running (pool s') = num_threads_running (pool s) /\
      count_returned (workers s') = count_returned (workers s))) /\
  (forall s ev i, ev_action ev = Run i -> workers s !! i = Some W_returned ->
     step ev s = None).
Proof.
  intros Hn. repeat apply conj.
  - intros uninit. unfold boot. by rewrite POOL_create_spec.
  - intros s Hr Hst. pose proof (Inv_reachable n s Hn Hr Hst) as HI.
    rewrite (inv_running _ _ HI), <- (inv_workers _ _ HI).
    pose proof (count_alive_returned (workers s)). lia.
  - intros s ev s' Hr Hstep. by eapply step_running_le.
  - intros s ev s' Hr Hstep Hst'.
    assert (Hst : status s = None).
    { unfold step in Hstep. by destruct (status s). }
    pose proof (Inv_reachable n s Hn Hr Hst) as HI.
    pose proof (Inv_step n s s' ev Hn HI Hstep Hst') as HI'.
    rewrite (inv_running _ _ HI), (inv_running _ _ HI').
    pose proof (count_alive_returned (workers s)) as Ha.
    pose proof (count_alive_returned (workers s')) as Ha'.
    destruct (step_workers ev s s' Hstep Hst')
      as [[Hws _]|(j & w & w' & Hj & Hw & Hws & Hcases)].
    { right. rewrite Hws in *. lia. }
    assert (Hlen : (j < length (workers s))%nat) by by eapply lookup_lt_Some.
    pose proof (count_alive_insert (workers s) j _ w' Hw) as Hc.
    rewrite Hws in *. rewrite length_insert in Ha'.
    destruct Hcases as [(-> & -> & _)|[[-> ->]|[[-> [? ->]]|[-> [? ->]]]]];
      simpl in Hc.
    + left. split; [lia|]. split; [lia|].
      exists j. split; [done|]. split; [done|].
      by apply list_lookup_insert_eq.
    + right. lia.
    + right. lia.
    + right. lia.
  - intros s ev i. apply step_run_returned.
Qed.

Lemma running_counter_only_falls_witness :
  (forall uninit, num_threads_running (pool (boot uninit 2)) = 2) /\
  (forall s, reachable 2 s -> status s = None ->
     num_threads_running (pool s)
       = 2 - Z.of_nat (count_returned (workers s))) /\
  (forall s ev s', reachable 2 s -> step ev s = Some s' ->
     num_threads_running (pool s') <= num_threads_running (pool s)) /\
  (forall s ev s', reachable 2 s -> step ev s = Some s' -> status s' = None ->
     (num_threads_running (pool s') = num_threads_running (pool s) - 1 /\
      count_returned (workers s') = S (count_returned (workers s)) /\
      exists i, ev_action ev = Run i /\ workers s !! i = Some W_loop /\
                workers s' !! i = Some W_returned) \/
     (num_threads_running (pool s') = num_threads_running (pool s) /\
      count_returned (workers s') = count_returned (workers s))) /\
  (forall s ev i, ev_action ev = Run i -> workers s !! i = Some W_returned ->
     step ev s = None).
Proof.
  apply (running_counter_only_falls 2).
  unfold is_size_t, SIZE_WIDTH. lia.
Defined.

(* ===================================================================== *)
(** * Part 5: a fairly scheduled shutdown drains the pool                 *)
(* ===================================================================== *)

Section Drain.

Variable n : Z.
Hypothesis n_size : is_size_t n.

Implicit Types (s : System) (a : action) (i k : nat).

(** ** Steps without failures *)

Lemma step_transition a s s' :
  no_submit a -> step (ok a) s = Some s' -> transition a s s'.
Proof.
  intros Ha Hstep.
  assert (Hst : status s = None).
  { unfold step in Hstep. by destruct (status s). }
  destruct a as [c work| |i]; [done| |].
  - destruct (destroyer s) eqn:Hd.
    + unfold step in Hstep. rewrite Hst, Hd in Hstep. cbn [ev_action ok] in Hstep.
      destruct (POOL_destroy_step _ _ _) as [pc' p'|st p'|] eqn:Hx;
        [| |done].
      * apply destroy_Ret in Hx as (Hm & -> & ->). inversion Hstep.
        by apply T_entry.
      * by apply destroy_Exit in Hx as [_ [?|?]].
    + unfold step in Hstep. rewrite Hst, Hd in Hstep. cbn [ev_action ok] in Hstep.
      destruct (POOL_destroy_step _ _ _) as [pc' p'|st p'|] eqn:Hx;
        [| |done].
      * pose proof Hx as Hx'. apply destroy_Ret in Hx' as (Hm & _).
        rewrite destroy_wait_stack in Hx by done. inversion Hx; subst.
        inversion Hstep. by apply T_wait_stack.
      * by apply destroy_Exit in Hx as [_ [?|?]].
    + unfold step in Hstep. rewrite Hst, Hd in Hstep. cbn [ev_action ok] in Hstep.
      destruct (POOL_destroy_step _ _ _) as [pc' p'|st p'|] eqn:Hx;
        [| |done].
      * pose proof Hx as Hx'. apply destroy_Ret in Hx' as (Hm & _).
        rewrite destroy_wait_running in Hx by done. inversion Hx; subst.
        inversion Hstep. by apply T_wait_running.
      * by apply destroy_Exit in Hx as [_ [?|?]].
    + rewrite (step_destroy_teardown s (ok Destroy)) in Hstep by done.
      inversion Hstep. by apply T_teardown.
    + unfold step in Hstep. by rewrite Hst, Hd in Hstep.
  - destruct (workers s !! i) as [[|work|]|] eqn:Hw.
    + unfold step in Hstep. rewrite Hst in Hstep. cbn [ev_action ok] in Hstep.
      rewrite Hw in Hstep.
      destruct (await_and_do_tasks_iteration _ _) as [w p'|st p'|] eqn:Hx;
        [| |done].
      * apply iteration_Ret in Hx as
          [Hm [(-> & Hs & Hts & ->)|[(wk & next & -> & Hts & ->)|(-> & Hs & Hts & ->)]]];
          inversion Hstep.
        -- by apply T_return.
        -- by eapply T_pop.
        -- by apply T_yield.
      * by apply iteration_Exit in Hx as [_ [?|?]].
    + rewrite (step_run_calls s i work (ok (Run i))) in Hstep by done.
      inversion Hstep. by apply T_call.
    + by rewrite (step_run_returned s i (ok (Run i))) in Hstep.
    + unfold step in Hstep. rewrite Hst in Hstep. cbn [ev_action ok] in Hstep.
      by rewrite Hw in Hstep.
Qed.

Lemma stay_or_move a s :
  no_submit a ->
  step_or_stay a s = s \/
  (step (ok a) s = Some (step_or_stay a s) /\
   transition a s (step_or_stay a s)).
Proof.
  intros Ha. unfold step_or_stay.
  destruct (step (ok a) s) as [s'|] eqn:Hstep; [right|by left].
  split; [done|]. by apply step_transition.
Qed.

Lemma transition_frame a s s' :
  transition a s s' ->
  status s' = None /\ accepted s' = accepted s /\
  ((forall o, pool_mutex (pool s) <> Locked o) ->
   forall o, pool_mutex (pool s') <> Locked o) /\
  (is_shutdown (pool s) = true -> is_shutdown (pool s') = true) /\
  (destroy_rank (destroyer s') <= destroy_rank (destroyer s))%nat.
Proof.
  destruct 1; simpl; repeat split; try done.
  all: try (destruct (pool s); simpl in *; done).
  all: try (rewrite H0; simpl; lia).
  - rewrite H0. destruct (bool_decide _); simpl; lia.
  - rewrite H0. destruct (_ =? 0); simpl; lia.
  - rewrite H. simpl. lia.
Qed.

Lemma live_move a s s' :
  live n s -> step (ok a) s = Some s' -> transition a s s' -> live n s'.
Proof.
  intros (HI & Hst & Hm) Hstep Ht.
  destruct (transition_frame a s s' Ht) as (Hst' & _ & Hm' & _).
  split; [by eapply Inv_step|]. split; [done|]. by apply Hm'.
Qed.

(** ** The backlog shrinks *)

Lemma backlog_move a s s' :
  transition a s s' ->
  (backlog s' <= backlog s)%nat /\
  (forall i, a = Run i -> is_shutdown (pool s) = true ->
             (backlog s' < backlog s)%nat).
Proof.
  destruct 1 as [s Hm Hd|s Hm Hd|s Hm Hd|s Hd|s i Hm Hw Hs Hts
                |s i work next Hm Hw Hts|s i Hm Hw Hs Hts|s i work Hw];
    unfold backlog; simpl.
  1-4: split; [destruct (pool s); simpl; lia|done].
  - pose proof (count_alive_insert (workers s) i _ W_returned Hw) as Hc.
    rewrite (in_flight_same (workers s) i _ W_returned Hw) by done.
    simpl in Hc. destruct (pool s); simpl in *. split; [lia|intros; lia].
  - pose proof (count_alive_insert (workers s) i _ (W_call work) Hw) as Hc.
    pose proof (Permutation_length (in_flight_pop (workers s) i work Hw)) as Hf.
    simpl in Hc, Hf. destruct (pool s); simpl in *. subst.
    simpl. split; [lia|intros; lia].
  - pose proof (count_alive_insert (workers s) i _ W_loop Hw) as Hc.
    rewrite (in_flight_same (workers s) i _ W_loop Hw) by done.
    simpl in Hc. split; [lia|]. intros _ _ Hs'. congruence.
  - pose proof (count_alive_insert (workers s) i _ W_loop Hw) as Hc.
    pose proof (Permutation_length (in_flight_call (workers s) i work Hw)) as Hf.
    simpl in Hc, Hf. split; [lia|intros; lia].
Qed.

(** A worker that has not returned can take its step. *)
Lemma run_enabled s i w :
  live n s -> workers s !! i = Some w -> alive w = true ->
  exists s', step (ok (Run i)) s = Some s'.
Proof.
  intros (HI & Hst & Hm) Hw Ha.
  assert (Hu : pool_mutex (pool s) = Unlocked).
  { destruct (pool_mutex (pool s)) as [|o|] eqn:Hpm; [done|by destruct (Hm o)|].
    apply (inv_mutex _ _ HI) in Hpm.
    pose proof (inv_stopped _ _ HI (or_intror Hpm)) as Hz.
    rewrite (inv_running _ _ HI) in Hz.
    pose proof (alive_lookup_count _ _ _ Hw Ha). lia. }
  destruct w as [|work|]; [|eexists; by eapply step_run_calls|done].
  destruct (task_stack (pool s)) as [|work next] eqn:Hts.
  - destruct (is_shutdown (pool s)) eqn:Hs.
    + eexists; by eapply step_run_returns.
    + eexists; by eapply step_run_yields.
  - eexists; by eapply step_run_pops.
Qed.

(** So can the caller of [POOL_destroy], until it has returned. *)
Lemma destroy_enabled s :
  live n s -> destroyer s <> D_returned ->
  exists s', step (ok Destroy) s = Some s'.
Proof.
  intros (HI & Hst & Hm) Hd.
  assert (Hu : pool_mutex (pool s) = Unlocked).
  { destruct (pool_mutex (pool s)) as [|o|] eqn:Hpm; [done|by destruct (Hm o)|].
    by apply (inv_mutex _ _ HI) in Hpm. }
  destruct (destroyer s) eqn:Hpc; try done.
  - eexists; by eapply step_destroy_entry.
  - eexists; by eapply step_destroy_wait_stack.
  - eexists; by eapply step_destroy_wait_running.
  - eexists; by eapply (step_destroy_teardown s (ok Destroy)).
Qed.

(** ** Along a schedule *)

Section Schedule.

Variable sched : schedule.
Hypothesis sched_quiet : quiet sched.
Variable s0 : System.
Hypothesis s0_live : live n s0.

Lemma exec_live k :
  live n (exec sched k s0) /\ accepted (exec sched k s0) = accepted s0.
Proof.
  induction k as [|k [IH1 IH2]]; simpl; [done|].
  destruct (stay_or_move (sched k) (exec sched k s0) (sched_quiet k))
    as [->|[Hstep Ht]]; [done|].
  split; [by eapply live_move|].
  destruct (transition_frame _ _ _ Ht) as (_ & -> & _). done.
Qed.

Lemma exec_backlog k j :
  (backlog (exec sched (k + j) s0) <= backlog (exec sched k s0))%nat.
Proof.
  induction j as [|j IH]; [by rewrite Nat.add_0_r|].
  rewrite Nat.add_succ_r. simpl.
  destruct (stay_or_move (sched (k + j)%nat) (exec sched (k + j) s0)
              (sched_quiet _)) as [->|[_ Ht]]; [done|].
  apply backlog_move in Ht as [Ht _]. lia.
Qed.

Lemma exec_shutdown k j :
  is_shutdown (pool (exec sched k s0)) = true ->
  is_shutdown (pool (exec sched (k + j) s0)) = true.
Proof.
  intros Hs. induction j as [|j IH]; [by rewrite Nat.add_0_r|].
  rewrite Nat.add_succ_r. simpl.
  destruct (stay_or_move (sched (k + j)%nat) (exec sched (k + j) s0)
              (sched_quiet _)) as [->|[_ Ht]]; [done|].
  destruct (transition_frame _ _ _ Ht) as (_ & _ & _ & H & _). by apply H.
Qed.

Hypothesis n_positive : 1 <= n.
Hypothesis sched_fair : fair (Z.to_nat n) sched.

Lemma transition_other_worker a s s' i :
  transition a s s' -> a <> Run i -> workers s' !! i = workers s !! i.
Proof.
  destruct 1; simpl; try done.
  all: intros Hne; apply list_lookup_insert_ne; congruence.
Qed.

Lemma transition_all_returned a s s' :
  transition a s s' -> count_alive (workers s) = O ->
  workers s' = workers s.
Proof.
  destruct 1 as [| | | |s i Hm Hw Hs Hts|s i work next Hm Hw Hts
                |s i Hm Hw Hs Hts|s i work Hw]; simpl; try done.
  all: intros Hz; by pose proof (count_alive_0_lookup _ _ _ Hz Hw).
Qed.

(** A worker that has not returned stays so until it runs, unless the
    backlog has shrunk in the meantime. *)
Lemma chase_worker k i w :
  is_shutdown (pool (exec sched k s0)) = true ->
  workers (exec sched k s0) !! i = Some w -> alive w = true ->
  forall j,
    (exists w', workers (exec sched (k + j) s0) !! i = Some w' /\
                alive w' = true) \/
    (backlog (exec sched (k + j) s0) < backlog (exec sched k s0))%nat.
Proof.
  intros Hs Hw Ha j. induction j as [|j IH].
  - rewrite Nat.add_0_r. left. by exists w.
  - pose proof (exec_backlog k j) as Hle.
    pose proof (exec_shutdown k j Hs) as Hs'.
    rewrite Nat.add_succ_r. simpl.
    destruct (stay_or_move (sched (k + j)%nat) (exec sched (k + j) s0)
                (sched_quiet _)) as [->|[_ Ht]]; [done|].
    pose proof (backlog_move _ _ _ Ht) as [Hmono Hstrict].
    destruct IH as [(w' & Hw' & Ha')|Hlt]; [|right; lia].
    destruct (sched (k + j)%nat) as [c work| |i'] eqn:Hsched.
    + by pose proof (sched_quiet (k + j)%nat) as Hq; rewrite Hsched in Hq.
    + left. exists w'. split; [|done].
      by rewrite (transition_other_worker _ _ _ i Ht).
    + destruct (decide (i' = i)) as [->|Hne].
      * right. specialize (Hstrict i eq_refl Hs'). lia.
      * left. exists w'. split; [|done].
        rewrite (transition_other_worker _ _ _ i Ht); [done|congruence].
Qed.

(** Once the shutdown flag is set, every worker returns in the end. *)
Lemma eventually_all_returned m :
  forall k,
    (backlog (exec sched k s0) <= m)%nat ->
    is_shutdown (pool (exec sched k s0)) = true ->
    exists k', (k <= k')%nat /\ count_alive (workers (exec sched k' s0)) = O.
Proof.
  induction m as [|m IH]; intros k Hb Hs.
  - exists k. split; [done|]. unfold backlog in Hb. lia.
  - destruct (count_alive (workers (exec sched k s0))) as [|c] eqn:Hc.
    { by exists k. }
    destruct (count_alive_pos_lookup (workers (exec sched k s0)))
      as (i & w & Hw & Ha); [lia|].
    destruct (exec_live k) as [(HI & _ & _) _].
    assert (Hi : (i < Z.to_nat n)%nat).
    { apply lookup_lt_Some in Hw. pose proof (inv_workers _ _ HI). lia. }
    destruct sched_fair as [_ Hfair].
    destruct (Hfair i Hi k) as (k1 & Hk1 & Hrun).
    replace k1 with (k + (k1 - k))%nat in * by lia.
    set (j := (k1 - k)%nat) in *.
    pose proof (exec_shutdown k j Hs) as Hs1.
    destruct (chase_worker k i w Hs Hw Ha j) as [(w' & Hw' & Ha')|Hlt].
    + destruct (exec_live (k + j)) as [Hlive _].
      destruct (run_enabled _ i w' Hlive Hw' Ha') as (s' & Hstep).
      pose proof (exec_backlog k j) as Hle.
      destruct (IH (S (k + j))) as (k' & Hk' & Hz).
      * simpl. rewrite Hrun. unfold step_or_stay. rewrite Hstep.
        apply step_transition in Hstep; [|done].
        apply backlog_move in Hstep as [_ Hstrict].
        specialize (Hstrict i eq_refl Hs1). lia.
      * by apply (exec_shutdown (k + j) 1) in Hs1;
          rewrite Nat.add_1_r in Hs1.
      * exists k'. split; [lia|done].
    + destruct (IH (k + j)%nat) as (k' & Hk' & Hz); [lia|done|].
      exists k'. split; [lia|done].
Qed.

(** With every worker returned, nothing but [POOL_destroy] moves. *)
Lemma chase_destroyer k :
  count_alive (workers (exec sched k s0)) = O ->
  forall j,
    count_alive (workers (exec sched (k + j) s0)) = O /\
    (destroy_rank (destroyer (exec sched (k + j) s0))
     <= destroy_rank (destroyer (exec sched k s0)))%nat.
Proof.
  intros Hz j. induction j as [|j [IH1 IH2]].
  - by rewrite Nat.add_0_r.
  - rewrite Nat.add_succ_r. simpl.
    destruct (stay_or_move (sched (k + j)%nat) (exec sched (k + j) s0)
                (sched_quiet _)) as [->|[_ Ht]]; [done|].
    rewrite (transition_all_returned _ _ _ Ht IH1).
    destruct (transition_frame _ _ _ Ht) as (_ & _ & _ & _ & Hrank).
    split; [done|lia].
Qed.

Lemma destroy_progress s s' :
  live n s -> count_alive (workers s) = O -> transition Destroy s s' ->
  (destroy_rank (destroyer s') < destroy_rank (destroyer s))%nat.
Proof.
  intros (HI & _ & _) Hz Ht.
  assert (Hdrained : task_stack (pool s) = []).
  { apply (inv_returned _ _ HI). pose proof (inv_workers _ _ HI). lia. }
  assert (Hrun : num_threads_running (pool s) = 0).
  { rewrite (inv_running _ _ HI). lia. }
  inversion Ht as [? Hm Hd|? Hm Hd|? Hm Hd|? Hd| | | |]; subst; simpl;
    rewrite Hd; simpl.
  - lia.
  - rewrite Hdrained. simpl. lia.
  - rewrite Hrun. simpl. lia.
  - lia.
Qed.

(** With every worker returned, [POOL_destroy] returns in the end. *)
Lemma eventually_returned r :
  forall k,
    count_alive (workers (exec sched k s0)) = O ->
    (destroy_rank (destroyer (exec sched k s0)) <= r)%nat ->
    exists k', (k <= k')%nat /\ destroyer (exec sched k' s0) = D_returned.
Proof.
  induction r as [|r IH]; intros k Hz Hr.
  - exists k. split; [done|].
    destruct (destroyer (exec sched k s0)); simpl in Hr; try lia. done.
  - destruct sched_fair as [Hfair _].
    destruct (Hfair k) as (k1 & Hk1 & Hdes).
    replace k1 with (k + (k1 - k))%nat in * by lia.
    set (j := (k1 - k)%nat) in *.
    destruct (chase_destroyer k Hz j) as [Hz1 Hr1].
    assert (Hcase : destroyer (exec sched (k + j) s0) = D_returned \/
                    destroyer (exec sched (k + j) s0) <> D_returned).
    { destruct (destroyer (exec sched (k + j) s0)); auto. }
    destruct Hcase as [Hd|Hd].
    { exists (k + j)%nat. split; [lia|done]. }
    destruct (exec_live (k + j)) as [Hlive _].
    destruct (destroy_enabled _ Hlive Hd) as (s' & Hstep).
    pose proof (step_transition Destroy _ _ I Hstep) as Ht.
    pose proof (destroy_progress _ _ Hlive Hz1 Ht) as Hlt.
    destruct (IH (S (k + j))) as (k' & Hk' & Hret).
    + simpl. rewrite Hdes. unfold step_or_stay. rewrite Hstep.
      by rewrite (transition_all_returned _ _ _ Ht Hz1).
    + simpl. rewrite Hdes. unfold step_or_stay. rewrite Hstep. lia.
    + exists k'. split; [lia|done].
Qed.

(** The shutdown flag gets set. *)
Lemma eventually_shutdown :
  exists k, is_shutdown (pool (exec sched k s0)) = true.
Proof.
  destruct sched_fair as [Hfair _].
  destruct (Hfair O) as (k & _ & Hdes).
  destruct (exec_live k) as [Hlive _].
  destruct (destroyer (exec sched k s0)) eqn:Hd.
  2-5: exists k; destruct Hlive as (HI & _); apply (inv_shutdown _ _ HI);
    by rewrite Hd.
  destruct (destroy_enabled _ Hlive) as (s' & Hstep); [by rewrite Hd|].
  exists (S k). simpl. rewrite Hdes. unfold step_or_stay. rewrite Hstep.
  apply step_transition in Hstep; [|done].
  inversion Hstep as [? Hm Hd'|? Hm Hd'|? Hm Hd'|? Hd'| | | |]; subst;
    rewrite Hd in Hd'; try done.
Qed.

(** Under a fair schedule on which nobody submits any more,
    [POOL_destroy] returns, and by then the workers have called exactly the
    tasks that had been accepted. *)
Lemma fair_shutdown_drains :
  exists k,
    destroyer (exec sched k s0) = D_returned /\
    accepted (exec sched k s0) = accepted s0 /\
    executed (exec sched k s0) ≡ₚ accepted s0.
Proof.
  destruct eventually_shutdown as (kA & Hs).
  destruct (eventually_all_returned _ kA (le_n _) Hs) as (kB & _ & Hz).
  destruct (eventually_returned 4 kB Hz) as (kC & _ & Hret).
  { destruct (destroyer (exec sched kB s0)); simpl; lia. }
  exists kC. destruct (exec_live kC) as [(HI & _ & _) Hacc].
  split; [done|]. split; [done|].
  pose proof (inv_tasks _ _ HI) as Ht.
  rewrite (inv_drained _ _ HI) in Ht by tauto.
  pose proof (inv_stopped _ _ HI (or_intror Hret)) as Hstop.
  rewrite (inv_running _ _ HI) in Hstop.
  rewrite count_alive_0_in_flight in Ht by lia.
  simpl in Ht. by rewrite <- Ht, Hacc.
Qed.

End Schedule.

End Drain.

(** ** Every accepted task runs exactly once *)

Lemma sample_start_reachable : reachable 2 sample_start.
Proof. exists closing_pool, (firstn 3 sample_run). reflexivity. Qed.

Lemma round_robin_quiet : quiet round_robin.
Proof.
  intros k. unfold round_robin.
  by destruct (k mod 3)%nat as [|[|?]].
Qed.

Lemma round_robin_fair : fair 2 round_robin.
Proof.
  split.
  - intros k. exists (k * 3)%nat. split; [lia|].
    unfold round_robin. by rewrite Nat.Div0.mod_mul.
  - intros i Hi k. exists (i + 1 + k * 3)%nat. split; [lia|].
    unfold round_robin. rewrite Nat.Div0.mod_add.
    destruct i as [|[|i]]; [done|done|lia].
Qed.

(** C8. Every accepted task is called exactly once, and before
    [POOL_destroy] returns. For a pool created with [n >= 1] threads:
    (1) in whatever way the threads interleave, while the process runs
    every accepted task is in exactly one place: on the stack, held by a
    worker, or called; (2) in every state in which [POOL_destroy] has
    returned, the calls made are the accepted tasks, each once, none is
    left on the stack or held; (3) from every state in which [POOL_destroy]
    has not started, if nobody submits any more and the scheduler is fair,
    [POOL_destroy] does return, with exactly the accepted tasks called. *)
Theorem accepted_tasks_run_exactly_once (n : Z) :
  1 <= n -> is_size_t n ->
  (forall s, reachable n s -> status s = None ->
     accepted s ≡ₚ task_stack (pool s) ++ in_flight (workers s) ++ executed s) /\
  (forall s, reachable n s -> status s = None -> destroyer s = D_returned ->
     executed s ≡ₚ accepted s /\
     length (executed s) = length (accepted s) /\
     task_stack (pool s) = [] /\ in_flight (workers s) = []) /\
  (forall s sched, reachable n s -> status s = None -> destroyer s = D_entry ->
     quiet sched -> fair (Z.to_nat n) sched ->
     exists k,
       destroyer (exec sched k s) = D_returned /\
       accepted (exec sched k s) = accepted s /\
       executed (exec sched k s) ≡ₚ accepted s /\
       length (executed (exec sched k s)) = length (accepted s)).
Proof.
  intros Hpos Hn. repeat apply conj.
  - intros s Hr Hst. apply (inv_tasks n). by apply Inv_reachable.
  - intros s Hr Hst Hd. pose proof (Inv_reachable n s Hn Hr Hst) as HI.
    pose proof (inv_tasks _ _ HI) as Ht.
    pose proof (inv_drained _ _ HI) as Hdr.
    pose proof (inv_stopped _ _ HI (or_intror Hd)) as Hstop.
    rewrite (inv_running _ _ HI) in Hstop.
    rewrite Hdr in Ht by tauto.
    rewrite count_alive_0_in_flight in Ht by lia. simpl in Ht.
    split; [done|]. split; [by rewrite Ht|].
    split; [apply Hdr; tauto|]. apply count_alive_0_in_flight. lia.
  - intros s sched Hr Hst Hd Hq Hf.
    pose proof (Inv_reachable n s Hn Hr Hst) as HI.
    assert (Hlive : live n s).
    { split; [done|]. split; [done|]. intros o Ho.
      destruct (inv_entry _ _ HI Hd) as [_ Hm]. congruence. }
    destruct (fair_shutdown_drains n Hn sched Hq s Hlive Hpos Hf)
      as (k & Hret & Hacc & Hex).
    exists k. split; [done|]. split; [done|]. split; [done|].
    by rewrite Hex.
Qed.

Lemma accepted_tasks_run_exactly_once_witness :
  exists k,
    destroyer (exec round_robin k sample_start) = D_returned /\
    accepted (exec round_robin k sample_start) = accepted sample_start /\
    executed (exec round_robin k sample_start) ≡ₚ accepted sample_start /\
    length (executed (exec round_robin k sample_start))
      = length (accepted sample_start).
Proof.
  destruct (accepted_tasks_run_exactly_once 2) as (_ & _ & H);
    [lia | exact is_size_t_2 |].
  exact (H sample_start round_robin sample_start_reachable eq_refl eq_refl
           round_robin_quiet round_robin_fair).
Defined.

(** ** What a rejected submission leaves behind *)

Lemma locked_POOL_exectask (e : Env) (p : Threadpool) fn args o :
  pool_mutex p = Locked o ->
  POOL_exectask fn args e p = Block \/ POOL_exectask fn args e p = Exit 1 p.
Proof.
  intros Hm. open_records p e. run_prog.
  destruct (lrc =? 0) eqn:El; rcs; auto.
Qed.

Lemma locked_iteration (e : Env) (p : Threadpool) o :
  pool_mutex p = Locked o ->
  await_and_do_tasks_iteration e p = Block \/
  await_and_do_tasks_iteration e p = Exit 1 p.
Proof.
  intros Hm. open_records p e. run_prog.
  destruct (lrc =? 0) eqn:El; rcs; auto.
Qed.

Lemma locked_destroy (pc : destroy_pc) (e : Env) (p : Threadpool) o :
  pool_mutex p = Locked o ->
  pc = D_entry \/ pc = D_wait_stack \/ pc = D_wait_running ->
  POOL_destroy_step pc e p = Block \/ POOL_destroy_step pc e p = Exit 1 p.
Proof.
  intros Hm Hpc. open_records p e.
  destruct Hpc as [->|[->| ->]]; run_prog.
  all: destruct (lrc =? 0) eqn:El; rcs; auto.
Qed.

(** While the mutex is held by a thread that has left [POOL_exectask], no
    step changes the pool or lets [POOL_destroy] leave its loops. *)
Lemma locked_step (s s' : System) (ev : event) o :
  pool_mutex (pool s) = Locked o ->
  destroyer s = D_entry \/ destroyer s = D_wait_stack \/
  destroyer s = D_wait_running ->
  step ev s = Some s' ->
  pool s' = pool s /\ destroyer s' = destroyer s.
Proof.
  intros Hm Hd Hstep.
  destruct s as [p d ws acc ex st]. destruct ev as [a lrc urc].
  unfold step in Hstep. simpl in *. destruct st; [done|].
  destruct a as [c work| |i].
  - destruct (locked_POOL_exectask
                (env_of (mkEvent (Submit c work) lrc urc)) p
                (task_fn work) (task_args work) o Hm) as [Hx|Hx];
      rewrite Hx in Hstep; simpl in Hstep; [done|]. by inversion Hstep.
  - destruct (locked_destroy d (env_of (mkEvent Destroy lrc urc)) p o Hm Hd)
      as [Hx|Hx];
      destruct Hd as [->|[->| ->]]; rewrite Hx in Hstep; simpl in Hstep;
      try done; by inversion Hstep.
  - destruct (ws !! i) as [[|work|]|]; try done.
    + destruct (locked_iteration (env_of (mkEvent (Run i) lrc urc)) p o Hm)
        as [Hx|Hx];
        rewrite Hx in Hstep; simpl in Hstep; [done|]. by inversion Hstep.
    + by inversion Hstep.
Qed.

Lemma locked_run (evs : list event) (s s' : System) o :
  pool_mutex (pool s) = Locked o ->
  destroyer s = D_entry \/ destroyer s = D_wait_stack \/
  destroyer s = D_wait_running ->
  run evs s = Some s' ->
  pool s' = pool s /\ destroyer s' = destroyer s.
Proof.
  revert s. induction evs as [|ev evs IH]; intros s Hm Hd; simpl.
  - by intros [= ->].
  - destruct (step ev s) as [s1|] eqn:Hstep; [|done].
    destruct (locked_step s s1 ev o Hm Hd Hstep) as [Hp Hd1].
    intros Hrun. apply IH in Hrun as [-> ->]; [done| |].
    + by rewrite Hp.
    + by rewrite Hd1.
Qed.

(** A task submitted while [POOL_destroy] waits is rejected with the mutex
    left locked; after that, whatever is scheduled, [POOL_destroy] never
    returns and no worker pops or returns. *)
Lemma late_submit_blocks_destroy (evs : list event) (s' : System) :
  run late_submit_run two_workers = Some sample_stuck /\
  pool_mutex (pool sample_stuck) = Locked (Client 1) /\
  (run evs sample_stuck = Some s' ->
   destroyer s' = D_wait_stack /\ pool s' = pool sample_stuck).
Proof.
  split; [reflexivity|]. split; [reflexivity|].
  intros Hrun.
  apply (locked_run evs sample_stuck s' (Client 1)) in Hrun as [-> ->];
    [done|reflexivity|]. right. left. reflexivity.
Qed.

(** ** A pool without threads *)

(** With [num_threads = 0] nothing is ever called, and once a task has been
    accepted [POOL_destroy] stays in its first loop. *)
Lemma no_threads_run (evs : list event) (s s' : System) :
  workers s = [] -> run evs s = Some s' ->
  workers s' = [] /\ executed s' = executed s.
Proof.
  revert s. induction evs as [|ev evs IH]; intros s Hw; simpl.
  - by intros [= <-].
  - destruct (step ev s) as [s1|] eqn:Hstep; [|done].
    intros Hrun. apply IH in Hrun as [-> ->].
    + split; [done|].
      destruct s as [p d ws acc ex st]. destruct ev as [a lrc urc].
      unfold step in Hstep. simpl in *. subst ws. destruct st; [done|].
      destruct a as [c work| |i]; [| |done].
      * destruct (POOL_exectask _ _ _ p) as [b p'|st p'|];
          simpl in Hstep; by inversion Hstep.
      * destruct d; try done.
        1-3: destruct (POOL_destroy_step _ _ p) as [pc' p'|st p'|];
          simpl in Hstep; by inversion Hstep.
        by inversion Hstep.
    + destruct s as [p d ws acc ex st]. destruct ev as [a lrc urc].
      unfold step in Hstep. simpl in *. subst ws. destruct st; [done|].
      destruct a as [c work| |i]; [| |done].
      * destruct (POOL_exectask _ _ _ p) as [b p'|st p'|];
          simpl in Hstep; by inversion Hstep.
      * destruct d; try done.
        1-3: destruct (POOL_destroy_step _ _ p) as [pc' p'|st p'|];
          simpl in Hstep; by inversion Hstep.
        by inversion Hstep.
Qed.

Lemma no_threads_never_drain (s : System) :
  reachable 0 s -> status s = None ->
  executed s = [] /\
  (accepted s <> [] -> destroyer s = D_entry \/ destroyer s = D_wait_stack).
Proof.
  intros Hr Hst.
  assert (Hn : is_size_t 0) by (unfold is_size_t, SIZE_WIDTH; lia).
  pose proof (Inv_reachable 0 s Hn Hr Hst) as HI.
  destruct Hr as (uninit & evs & Hrun).
  apply no_threads_run in Hrun as [Hw Hex];
    [|by unfold boot; rewrite POOL_create_spec].
  assert (Hex' : executed s = []).
  { rewrite Hex. unfold boot. by rewrite POOL_create_spec. }
  split; [done|]. intros Hacc.
  pose proof (inv_tasks _ _ HI) as Ht. rewrite Hw, Hex' in Ht.
  simpl in Ht. rewrite app_nil_r in Ht.
  pose proof (inv_drained _ _ HI) as Hd.
  destruct (destroyer s); auto.
  all: rewrite Hd in Ht by tauto; by apply Permutation_nil_r in Ht.
Qed.

(* ===================================================================== *)
(** * Part 6: more about the pool                                         *)
(* ===================================================================== *)

(** ** Before [POOL_destroy] is called *)

Lemma sample_waiting_reachable : reachable 2 sample_waiting.
Proof. exists closing_pool, (firstn 2 late_submit_run). reflexivity. Qed.

Lemma sample_stuck_reachable : reachable 2 sample_stuck.
Proof. exists closing_pool, late_submit_run. reflexivity. Qed.

Lemma no_thread_system_reachable : reachable 0 no_thread_system.
Proof. exists closing_pool, [ok (Submit 0 (mkTask 1 10))]. reflexivity. Qed.

(** X1. As long as [POOL_destroy] has not taken its first step, the pool
    created with [n] threads is fully up between any two steps: the
    shutdown flag is clear, the mutex is free, no worker has returned, the
    running counter and the thread count are both [n], and the handles are
    allocated. *)
Theorem pool_is_up_before_destroy (n : Z) (s : System) :
  is_size_t n -> reachable n s -> status s = None -> destroyer s = D_entry ->
  is_shutdown (pool s) = false /\
  pool_mutex (pool s) = Unlocked /\
  count_alive (workers s) = length (workers s) /\
  count_returned (workers s) = O /\
  num_threads_running (pool s) = n /\
  num_threads (pool s) = n /\
  threads (pool s) <> None.
Proof.
  intros Hn Hr Hst Hd. pose proof (Inv_reachable n s Hn Hr Hst) as HI.
  destruct (inv_entry _ _ HI Hd) as [Hs Hm].
  assert (Hall : count_alive (workers s) = length (workers s)).
  { pose proof (count_alive_le_length (workers s)) as Hle.
    destruct (decide (count_alive (workers s) = length (workers s)))
      as [|Hne]; [done|].
    destruct (inv_returned _ _ HI) as [Hs' _]; [lia|congruence]. }
  pose proof (count_alive_returned (workers s)) as Hsum.
  repeat split; try done.
  - lia.
  - rewrite (inv_running _ _ HI), Hall. apply (inv_workers _ _ HI).
  - apply (inv_num_threads _ _ HI).
  - intros Hth. apply (inv_handles _ _ HI) in Hth. congruence.
Qed.

Lemma pool_is_up_before_destroy_witness :
  is_shutdown (pool sample_start) = false /\
  pool_mutex (pool sample_start) = Unlocked /\
  count_alive (workers sample_start) = length (workers sample_start) /\
  count_returned (workers sample_start) = O /\
  num_threads_running (pool sample_start) = 2 /\
  num_threads (pool sample_start) = 2 /\
  threads (pool sample_start) <> None.
Proof.
  apply (pool_is_up_before_destroy 2 sample_start);
    [exact is_size_t_2 | exact sample_start_reachable | reflexivity
    | reflexivity].
Defined.

(** ** Once the shutdown flag is set *)

Lemma POOL_exectask_after_shutdown (e : Env) (p : Threadpool) fn args :
  is_shutdown p = true ->
  match POOL_exectask fn args e p with
  | Ret b p' =>
      b = false /\ is_shutdown p' = true /\ task_stack p' = task_stack p
  | Exit _ p' => is_shutdown p' = true /\ task_stack p' = task_stack p
  | Block => True
  end.
Proof.
  intros Hs. open_records p e. run_prog. split_rcs lrc urc.
  all: destruct pm; rcs; done.
Qed.

Lemma iteration_after_shutdown (e : Env) (p : Threadpool) :
  is_shutdown p = true ->
  match await_and_do_tasks_iteration e p with
  | Ret _ p' | Exit _ p' =>
      is_shutdown p' = true /\ task_stack p' `suffix_of` task_stack p
  | Block => True
  end.
Proof.
  intros Hs. open_records p e. run_prog. split_rcs lrc urc.
  all: destruct pm; rcs; try done.
  all: destruct ts as [|work next]; rcs; split; try done.
  all: by apply suffix_cons_r.
Qed.

Lemma destroy_after_shutdown (pc : destroy_pc) (e : Env) (p : Threadpool) :
  is_shutdown p = true ->
  match POOL_destroy_step pc e p with
  | Ret _ p' | Exit _ p' =>
      is_shutdown p' = true /\ task_stack p' = task_stack p
  | Block => True
  end.
Proof.
  intros Hs. open_records p e. destruct pc; run_prog.
  all: split_rcs lrc urc; try done.
  all: destruct pm; rcs; try done.
  all: try (destruct ts; rcs; done).
  all: destruct (nr =? 0); rcs; done.
Qed.

Lemma shutdown_step (s s' : System) (ev : event) :
  is_shutdown (pool s) = true -> step ev s = Some s' ->
  is_shutdown (pool s') = true /\ accepted s' = accepted s /\
  task_stack (pool s') `suffix_of` task_stack (pool s).
Proof.
  intros Hs Hstep.
  destruct s as [p d ws acc ex st]. destruct ev as [a lrc urc].
  unfold step in Hstep. simpl in *. destruct st; [done|].
  destruct a as [c work| |i].
  - pose proof (POOL_exectask_after_shutdown
                  (env_of (mkEvent (Submit c work) lrc urc)) p
                  (task_fn work) (task_args work) Hs) as H.
    destruct (POOL_exectask _ _ _ p) as [b p'|st p'|];
      simpl in Hstep; inversion Hstep; subst; simpl.
    + destruct H as (-> & ? & ->). done.
    + destruct H as (? & ->). done.
  - destruct d; try done.
    1-3: match goal with
         | H : after _ (POOL_destroy_step ?pc ?e ?q) _ = _ |- _ =>
             pose proof (destroy_after_shutdown pc e q Hs) as HH;
             destruct (POOL_destroy_step pc e q) as [pc' p'|st p'|];
             simpl in H; inversion H; subst; simpl;
             destruct HH as (? & ->); done
         end.
    inversion Hstep; subst; simpl. by destruct p.
  - destruct (ws !! i) as [[|work|]|]; try done.
    + pose proof (iteration_after_shutdown
                    (env_of (mkEvent (Run i) lrc urc)) p Hs) as H.
      destruct (await_and_do_tasks_iteration _ p) as [w p'|st p'|];
        simpl in Hstep; inversion Hstep; subst; simpl; tauto.
    + inversion Hstep; subst; simpl. done.
Qed.

(** X2. The shutdown flag is final. From any state in which it is set,
    whatever the threads do next (failing mutex calls included), the flag
    stays set, no further task is accepted, and the task stack only loses
    tasks from its head. *)
Theorem shutdown_is_final (evs : list event) (s s' : System) :
  is_shutdown (pool s) = true -> run evs s = Some s' ->
  is_shutdown (pool s') = true /\
  accepted s' = accepted s /\
  task_stack (pool s') `suffix_of` task_stack (pool s).
Proof.
  revert s. induction evs as [|ev evs IH]; intros s Hs; simpl.
  - by intros [= <-].
  - destruct (step ev s) as [s1|] eqn:Hstep; [|done].
    destruct (shutdown_step s s1 ev Hs Hstep) as (Hs1 & Hacc & Hsuf).
    intros Hrun. destruct (IH s1 Hs1 Hrun) as (? & -> & ?).
    split; [done|]. split; [done|]. by etrans.
Qed.

Lemma shutdown_is_final_witness :
  is_shutdown (pool sample_end) = true /\
  accepted sample_end = accepted sample_mid /\
  task_stack (pool sample_end) `suffix_of` task_stack (pool sample_mid).
Proof.
  apply (shutdown_is_final (skipn 5 sample_run) sample_mid sample_end);
    reflexivity.
Defined.

(** ** Who holds the mutex between two steps *)

Lemma step_leaves_locked (s s' : System) (ev : event) o :
  step ev s = Some s' -> status s' = None ->
  pool_mutex (pool s') = Locked o ->
  pool_mutex (pool s) = Locked o \/
  (exists c work, ev_action ev = Submit c work /\ o = Client c /\
                  is_shutdown (pool s) = true /\ accepted s' = accepted s).
Proof.
  intros Hstep Hst' Hm.
  destruct s as [p d ws acc ex st]. destruct ev as [a lrc urc].
  unfold step in Hstep. simpl in *. destruct st; [done|].
  destruct a as [c work| |i].
  - destruct (POOL_exectask _ _ _ p) as [b p'|st p'|] eqn:Hx;
      simpl in Hstep; inversion Hstep; subst; simpl in *; try done.
    apply POOL_exectask_Ret in Hx as [Hu [(-> & Hs & ->)|(-> & Hs & ->)]].
    + right. exists c, work. destruct p; simpl in *. by inversion Hm.
    + destruct p; simpl in *. congruence.
  - destruct d; try done.
    1-3: destruct (POOL_destroy_step _ _ p) as [pc' p'|st p'|] eqn:Hx;
      simpl in Hstep; inversion Hstep; subst; simpl in *; try done.
    1-3: apply destroy_Ret in Hx; simpl in Hx.
    + destruct Hx as (Hu & _ & ->). destruct p; simpl in *. congruence.
    + destruct Hx as (Hu & -> & _). congruence.
    + destruct Hx as (Hu & -> & _). congruence.
    + inversion Hstep; subst; simpl in *. by destruct p.
  - destruct (ws !! i) as [[|work|]|] eqn:Hw; try done.
    + destruct (await_and_do_tasks_iteration _ p) as [w p'|st p'|] eqn:Hx;
        simpl in Hstep; inversion Hstep; subst; simpl in *; try done.
      apply iteration_Ret in Hx as
        [Hu [(-> & Hs & Hts & ->)|[(wk & next & -> & Hts & ->)|(-> & Hs & Hts & ->)]]];
        destruct p; simpl in *; congruence.
    + inversion Hstep; subst; simpl in *. by left.
Qed.

(** X3. Between two steps of a running process the mutex is held only by
    a client whose [POOL_exectask] was rejected: (1) whenever the mutex is
    locked, its owner is a client, the shutdown flag is set and
    [POOL_destroy] has started; (2) a step that leaves the mutex locked
    either found it locked or is a rejected [POOL_exectask]. A turn of the
    worker loop and a critical section of [POOL_destroy] always give the
    mutex back. *)
Theorem mutex_held_only_after_rejection (n : Z) (s : System) :
  is_size_t n -> reachable n s -> status s = None ->
  (forall o, pool_mutex (pool s) = Locked o ->
     (exists c, o = Client c) /\ is_shutdown (pool s) = true /\
     destroyer s <> D_entry) /\
  (forall ev s' o, step ev s = Some s' -> status s' = None ->
     pool_mutex (pool s') = Locked o ->
     pool_mutex (pool s) = Locked o \/
     (exists c work, ev_action ev = Submit c work /\ o = Client c /\
                     is_shutdown (pool s) = true /\ accepted s' = accepted s)).
Proof.
  intros Hn Hr Hst. pose proof (Inv_reachable n s Hn Hr Hst) as HI. split.
  - intros o Hm. destruct (inv_locked _ _ HI o Hm) as [Hs Hc].
    split; [done|]. split; [done|]. intros Hd.
    destruct (inv_entry _ _ HI Hd). congruence.
  - intros ev s' o. apply step_leaves_locked.
Qed.

Lemma mutex_held_only_after_rejection_witness :
  (forall o, pool_mutex (pool sample_stuck) = Locked o ->
     (exists c, o = Client c) /\ is_shutdown (pool sample_stuck) = true /\
     destroyer sample_stuck <> D_entry) /\
  (forall ev s' o, step ev sample_stuck = Some s' -> status s' = None ->
     pool_mutex (pool s') = Locked o ->
     pool_mutex (pool sample_stuck) = Locked o \/
     (exists c work, ev_action ev = Submit c work /\ o = Client c /\
                     is_shutdown (pool sample_stuck) = true /\
                     accepted s' = accepted sample_stuck)).
Proof.
  apply (mutex_held_only_after_rejection 2 sample_stuck);
    [exact is_size_t_2 | exact sample_stuck_reachable | reflexivity].
Defined.

(** ** A submission that comes while [POOL_destroy] waits *)

(** X4. When [POOL_exectask] is called while [POOL_destroy] is in one of
    its two waiting loops, the call is rejected and the pool is stuck from
    then on: the mutex stays locked by the caller, and whatever is
    scheduled afterwards the pool (stack, running counter, mutex) never
    changes again and [POOL_destroy] never leaves its loop. *)
Theorem submit_during_destroy_blocks_pool (n : Z) (s : System) (c : nat)
    (work : TaskStack) :
  is_size_t n -> reachable n s -> status s = None ->
  pool_mutex (pool s) = Unlocked ->
  destroyer s = D_wait_stack \/ destroyer s = D_wait_running ->
  exists s1,
    step (ok (Submit c work)) s = Some s1 /\
    accepted s1 = accepted s /\
    pool_mutex (pool s1) = Locked (Client c) /\
    forall evs s', run evs s1 = Some s' ->
      pool s' = pool s1 /\ destroyer s' = destroyer s /\
      destroyer s' <> D_returned.
Proof.
  intros Hn Hr Hst Hm Hd. pose proof (Inv_reachable n s Hn Hr Hst) as HI.
  assert (Hs : is_shutdown (pool s) = true).
  { apply (inv_shutdown _ _ HI). destruct Hd as [-> | ->]; done. }
  eexists. split; [by apply step_submit_rejected|].
  split; [done|]. split; [by destruct (pool s)|].
  intros evs s' Hrun.
  apply (locked_run evs _ s' (Client c)) in Hrun as [Hp Hd'].
  - simpl in Hd'. split; [done|]. split; [done|].
    rewrite Hd'. destruct Hd as [-> | ->]; done.
  - by destruct (pool s).
  - simpl. tauto.
Qed.

Lemma submit_during_destroy_blocks_pool_witness :
  exists s1,
    step (ok (Submit 1 (mkTask 2 20))) sample_waiting = Some s1 /\
    accepted s1 = accepted sample_waiting /\
    pool_mutex (pool s1) = Locked (Client 1) /\
    forall evs s', run evs s1 = Some s' ->
      pool s' = pool s1 /\ destroyer s' = destroyer sample_waiting /\
      destroyer s' <> D_returned.
Proof.
  apply (submit_during_destroy_blocks_pool 2 sample_waiting 1 (mkTask 2 20));
    [exact is_size_t_2 | exact sample_waiting_reachable | reflexivity
    | reflexivity | left; reflexivity].
Defined.

(** ** How many tasks are where *)

Lemma in_flight_le_alive (ws : list worker_pc) :
  (length (in_flight ws) <= count_alive ws)%nat.
Proof.
  unfold in_flight. induction ws as [|w ws IH]; simpl; [done|].
  rewrite length_app. destruct w; simpl; lia.
Qed.

(** X5. At any time the accepted tasks are split between the stack, the
    workers and the calls made, and no more tasks are being run than
    there are workers that have not returned: the number of tasks held by
    workers is at most the running counter, which is at most [n]. *)
Theorem tasks_in_flight_bounded (n : Z) (s : System) :
  is_size_t n -> reachable n s -> status s = None ->
  length (accepted s)
    = (length (task_stack (pool s)) + length (in_flight (workers s))
       + length (executed s))%nat /\
  Z.of_nat (length (in_flight (workers s))) <= num_threads_running (pool s) /\
  num_threads_running (pool s) <= num_threads (pool s) /\
  num_threads (pool s) = n.
Proof.
  intros Hn Hr Hst. pose proof (Inv_reachable n s Hn Hr Hst) as HI.
  split; [|split; [|split]].
  - rewrite (Permutation_length (inv_tasks _ _ HI)), !length_app. lia.
  - rewrite (inv_running _ _ HI).
    pose proof (in_flight_le_alive (workers s)). lia.
  - rewrite (inv_running _ _ HI), (inv_num_threads _ _ HI),
      <- (inv_workers _ _ HI).
    pose proof (count_alive_le_length (workers s)). lia.
  - apply (inv_num_threads _ _ HI).
Qed.

Lemma tasks_in_flight_bounded_witness :
  length (accepted sample_mid)
    = (length (task_stack (pool sample_mid))
       + length (in_flight (workers sample_mid))
       + length (executed sample_mid))%nat /\
  Z.of_nat (length (in_flight (workers sample_mid)))
    <= num_threads_running (pool sample_mid) /\
  num_threads_running (pool sample_mid) <= num_threads (pool sample_mid) /\
  num_threads (pool sample_mid) = 2.
Proof.
  apply (tasks_in_flight_bounded 2 sample_mid);
    [exact is_size_t_2 | exact sample_mid_reachable | reflexivity].
Defined.

(** ** A pool created with no thread *)

(** X6. [POOL_create(pool, 0)] gives a pool on which nothing is ever
    called: there is no worker, the running counter is zero, every accepted
    task stays on the stack, and once a task has been accepted
    [POOL_destroy] does not get past its first waiting loop. *)
Theorem pool_without_threads_runs_nothing (s : System) :
  reachable 0 s -> status s = None ->
  workers s = [] /\
  num_threads_running (pool s) = 0 /\
  executed s = [] /\
  accepted s ≡ₚ task_stack (pool s) /\
  (accepted s <> [] ->
   destroyer s = D_entry \/ destroyer s = D_wait_stack).
Proof.
  intros Hr Hst.
  assert (Hn : is_size_t 0) by (unfold is_size_t, SIZE_WIDTH; lia).
  pose proof (Inv_reachable 0 s Hn Hr Hst) as HI.
  destruct (no_threads_never_drain s Hr Hst) as [Hex Hd].
  assert (Hw : workers s = []).
  { pose proof (inv_workers _ _ HI). destruct (workers s); [done|].
    simpl in *. lia. }
  split; [done|]. split; [by rewrite (inv_running _ _ HI), Hw|].
  split; [done|]. split; [|done].
  pose proof (inv_tasks _ _ HI) as Ht. rewrite Hw, Hex in Ht.
  simpl in Ht. by rewrite app_nil_r in Ht.
Qed.

Lemma pool_without_threads_runs_nothing_witness :
  workers no_thread_system = [] /\
  num_threads_running (pool no_thread_system) = 0 /\
  executed no_thread_system = [] /\
  accepted no_thread_system ≡ₚ task_stack (pool no_thread_system) /\
  (accepted no_thread_system <> [] ->
   destroyer no_thread_system = D_entry \/
   destroyer no_thread_system = D_wait_stack).
Proof.
  apply (pool_without_threads_runs_nothing no_thread_system);
    [exact no_thread_system_reachable | reflexivity].
Defined.

(* ===================================================================== *)
(** * Part 7: the test driver                                             *)
(* ===================================================================== *)

(** ** Steps of the process, once more *)

Lemma run_snoc (evs : list event) (ev : event) (s s1 s2 : System) :
  run evs s = Some s1 -> step ev s1 = Some s2 ->
  run (evs ++ [ev]) s = Some s2.
Proof.
  revert s. induction evs as [|e evs IH]; intros s; simpl.
  - intros [= ->] ->. done.
  - destruct (step e s) as [s'|]; [|done]. apply IH.
Qed.

Lemma reachable_step (n : Z) (s s' : System) (ev : event) :
  reachable n s -> step ev s = Some s' -> reachable n s'.
Proof.
  intros (uninit & evs & Hrun) Hstep.
  exists uninit, (evs ++ [ev]). by eapply run_snoc.
Qed.

(** What a step of one kind of thread leaves alone. *)
Lemma step_frame (s s' : System) (ev : event) :
  step ev s = Some s' -> status s' = None ->
  match ev_action ev with
  | Submit _ _ => destroyer s' = destroyer s
  | Destroy => accepted s' = accepted s
  | Run _ => destroyer s' = destroyer s /\ accepted s' = accepted s
  end.
Proof.
  intros Hstep Hst'.
  destruct s as [p d ws acc ex st]. destruct ev as [a lrc urc].
  unfold step in Hstep. simpl in *. destruct st; [done|].
  destruct a as [c work| |i].
  - destruct (POOL_exectask _ _ _ p) as [b p'|st p'|];
      simpl in Hstep; inversion Hstep; subst; done.
  - destruct d; try done.
    1-3: destruct (POOL_destroy_step _ _ p) as [pc' p'|st p'|];
      simpl in Hstep; inversion Hstep; subst; done.
    by inversion Hstep.
  - destruct (ws !! i) as [[|work|]|]; try done.
    + destruct (await_and_do_tasks_iteration _ p) as [w p'|st p'|];
        simpl in Hstep; inversion Hstep; subst; done.
    + by inversion Hstep.
Qed.

(** With mutex calls that succeed, no step ends the process. *)
Lemma step_ok_status (a : action) (s s' : System) :
  step (ok a) s = Some s' -> status s' = None.
Proof.
  intros Hstep.
  destruct s as [p d ws acc ex st].
  unfold step in Hstep. simpl in *. destruct st; [done|].
  destruct a as [c work| |i].
  - destruct (POOL_exectask _ _ _ p) as [b p'|st p'|] eqn:Hx;
      simpl in Hstep; inversion Hstep; subst; try done.
    by apply POOL_exectask_Exit in Hx as [_ [?|?]].
  - destruct d; try done.
    1-3: destruct (POOL_destroy_step _ _ p) as [pc' p'|st p'|] eqn:Hx;
      simpl in Hstep; inversion Hstep; subst; try done.
    1-3: by apply destroy_Exit in Hx as [_ [?|?]].
    by inversion Hstep.
  - destruct (ws !! i) as [[|work|]|]; try done.
    + destruct (await_and_do_tasks_iteration _ p) as [w p'|st p'|] eqn:Hx;
        simpl in Hstep; inversion Hstep; subst; try done.
      by apply iteration_Exit in Hx as [_ [?|?]].
    + by inversion Hstep.
Qed.

Lemma is_size_t_8 : is_size_t 8.
Proof. unfold is_size_t, SIZE_WIDTH. lia. Qed.

(** ** What [main] keeps true *)

Section Test.

Variable nothing : Z.

Implicit Types (t : Test) (ev : test_event).

Lemma test_inv_boot (uninit : Threadpool) :
  test_inv nothing (main_boot uninit).
Proof.
  unfold test_inv, main_boot. cbn [process loop_i main_status].
  split; [by unfold boot; rewrite POOL_create_spec|].
  split; [by exists uninit, []|].
  split; [lia|].
  split; [by unfold boot; rewrite POOL_create_spec|].
  split; [by unfold boot; rewrite POOL_create_spec|].
  split; [by unfold boot; rewrite POOL_create_spec|].
  by left.
Qed.

Lemma test_inv_step t t' ev :
  test_inv nothing t -> test_step nothing ev t = Some t' ->
  status (process t') = None -> test_inv nothing t'.
Proof.
  intros (Hst & Hr & Hi & Hacc & Hd & Hm & Hmain) Hstep Hst'.
  pose proof (Inv_reachable 8 _ is_size_t_8 Hr Hst) as HI.
  destruct t as [s i ms]. destruct ev as [th lrc urc].
  unfold test_step in Hstep. simpl in *. rewrite Hst in Hstep.
  destruct ms as [r|]; [done|]. clear Hmain.
  destruct th as [|k]; simpl in Hstep.
  - unfold main_step in Hstep. simpl in Hstep.
    destruct (Z.ltb_spec i 5000) as [Hlt|Hge].
    + destruct (step _ s) as [s'|] eqn:Hs; [|done].
      inversion Hstep; subst; clear Hstep.
      unfold test_inv; cbn [process loop_i main_status] in *.
      destruct (inv_entry _ _ HI (Hd Hlt)) as [Hshut Hfree].
      assert (Hacc' : accepted s' = accepted s ++ [mkTask nothing NULL]).
      { destruct s as [p d ws acc ex st]. unfold step in Hs. simpl in *.
        subst st.
        destruct (POOL_exectask _ _ _ p) as [b p'|st p'|] eqn:Hx;
          simpl in Hs; inversion Hs; subst; simpl in *; try done.
        apply POOL_exectask_Ret in Hx as [_ [(_ & Hx & _)|(-> & _)]];
          [congruence|done]. }
      pose proof (step_frame _ _ _ Hs Hst') as Hfr. simpl in Hfr.
      split; [done|]. split; [by eapply reachable_step|].
      split; [lia|]. split.
      { rewrite Hacc', Hacc.
        replace (Z.to_nat (i + 1)) with (S (Z.to_nat i)) by lia.
        by rewrite replicate_S_end. }
      split; [intros _; rewrite Hfr; by apply Hd|].
      split; [|by left].
      intros o Ho.
      destruct (step_leaves_locked _ _ _ o Hs Hst' Ho)
        as [Hl|(c & w & _ & _ & Hsh & _)]; [by apply (Hm o)|congruence].
    + assert (i = 5000) by lia. subst i.
      destruct (destroyer s) eqn:Hpc.
      5: { inversion Hstep; subst.
           unfold test_inv; cbn [process loop_i main_status].
           repeat split; try done. right. done. }
      all: destruct (step _ s) as [s'|] eqn:Hs; [|done].
      all: inversion Hstep; subst; clear Hstep.
      all: unfold test_inv; cbn [process loop_i main_status] in *.
      all: pose proof (step_frame _ _ _ Hs Hst') as Hfr; simpl in Hfr.
      all: split; [done|]; split; [by eapply reachable_step|].
      all: split; [lia|]; split; [by rewrite Hfr|].
      all: split; [lia|]; split; [|by left].
      all: intros o Ho.
      all: destruct (step_leaves_locked _ _ _ o Hs Hst' Ho)
        as [Hl|(c & w & [=] & _)]; by apply (Hm o).
  - destruct (step _ s) as [s'|] eqn:Hs; [|done].
    inversion Hstep; subst; clear Hstep.
    unfold test_inv; cbn [process loop_i main_status] in *.
    pose proof (step_frame _ _ _ Hs Hst') as [Hfd Hfa].
    split; [done|]. split; [by eapply reachable_step|].
    split; [lia|]. split; [by rewrite Hfa|].
    split; [intros Hlt; rewrite Hfd; by apply Hd|].
    split; [|by left].
    intros o Ho.
    destruct (step_leaves_locked _ _ _ o Hs Hst' Ho)
      as [Hl|(c & w & [=] & _)]; by apply (Hm o).
Qed.

Lemma test_run_status (evs : list test_event) t t' :
  test_run nothing evs t = Some t' -> status (process t') = None ->
  status (process t) = None.
Proof.
  revert t. induction evs as [|ev evs IH]; intros t; simpl.
  - by intros [= ->].
  - destruct (test_step nothing ev t) as [t1|] eqn:Hstep; [|done].
    intros _ _. unfold test_step in Hstep.
    destruct (main_status t); [done|]. by destruct (status (process t)).
Qed.

Lemma test_inv_run (evs : list test_event) t t' :
  test_inv nothing t -> test_run nothing evs t = Some t' ->
  status (process t') = None -> test_inv nothing t'.
Proof.
  revert t. induction evs as [|ev evs IH]; intros t HI; simpl.
  - by intros [= ->].
  - destruct (test_step nothing ev t) as [t1|] eqn:Hstep; [|done].
    intros Hrun Hst'. apply (IH t1); try done.
    eapply test_inv_step; try done. by eapply test_run_status.
Qed.

(** What the invariants give once [main] has returned. *)
Lemma test_inv_returned t :
  test_inv nothing t -> destroyer (process t) = D_returned ->
  loop_i t = 5000 /\
  accepted (process t) = replicate (Z.to_nat 5000) (mkTask nothing NULL) /\
  executed (process t) = replicate (Z.to_nat 5000) (mkTask nothing NULL) /\
  task_stack (pool (process t)) = [] /\
  num_threads_running (pool (process t)) = 0 /\
  count_returned (workers (process t)) = 8%nat.
Proof.
  intros (Hst & Hr & Hi & Hacc & Hd & Hm & Hmain) Hret.
  pose proof (Inv_reachable 8 _ is_size_t_8 Hr Hst) as HI.
  assert (Hi5 : loop_i t = 5000).
  { destruct (Z.ltb_spec (loop_i t) 5000) as [Hlt|Hge]; [|lia].
    rewrite (Hd Hlt) in Hret. done. }
  rewrite Hi5 in Hacc.
  pose proof (inv_tasks _ _ HI) as Ht.
  pose proof (inv_drained _ _ HI) as Hdr.
  pose proof (inv_stopped _ _ HI (or_intror Hret)) as Hstop.
  pose proof (inv_running _ _ HI) as Hrun.
  pose proof (inv_workers _ _ HI) as Hlen.
  pose proof (count_alive_returned (workers (process t))) as Hsum.
  rewrite Hdr in Ht by tauto.
  rewrite count_alive_0_in_flight in Ht by lia. simpl in Ht.
  rewrite Hacc in Ht. apply replicate_Permutation in Ht.
  repeat split; try done.
  - apply Hdr. tauto.
  - lia.
Qed.

End Test.

Lemma test_sample_run_ok :
  test_run 4096 test_sample_run (main_boot closing_pool) = Some test_sample.
Proof. reflexivity. Qed.

(** X7. In every interleaving of [main] of the test with the eight
    workers, while the process runs: [main] has made [i] calls of
    [POOL_exectask] and every one of them was accepted (none is rejected,
    so the mutex is never left locked); [POOL_destroy] does not start
    before the loop is over; and once [POOL_destroy] has returned, the
    workers have made exactly 5000 calls [nothing(NULL)], the running
    counter is zero and all eight workers have returned. [main] returns
    only then, with value 0. *)
Theorem test_main_is_safe (nothing : Z) (uninit : Threadpool)
    (evs : list test_event) (t : Test) :
  test_run nothing evs (main_boot uninit) = Some t ->
  status (process t) = None ->
  reachable 8 (process t) /\
  0 <= loop_i t <= 5000 /\
  accepted (process t)
    = replicate (Z.to_nat (loop_i t)) (mkTask nothing NULL) /\
  (loop_i t < 5000 ->
   destroyer (process t) = D_entry /\ is_shutdown (pool (process t)) = false) /\
  (forall o, pool_mutex (pool (process t)) <> Locked o) /\
  (destroyer (process t) = D_returned ->
   executed (process t) = replicate (Z.to_nat 5000) (mkTask nothing NULL) /\
   num_threads_running (pool (process t)) = 0 /\
   count_returned (workers (process t)) = 8%nat) /\
  (forall r, main_status t = Some r ->
   r = 0 /\ destroyer (process t) = D_returned).
Proof.
  intros Hrun Hst.
  pose proof (test_inv_run nothing evs _ t (test_inv_boot nothing uninit)
                Hrun Hst) as HT.
  pose proof HT as (_ & Hr & Hi & Hacc & Hd & Hm & Hmain).
  pose proof (Inv_reachable 8 _ is_size_t_8 Hr Hst) as HI.
  split; [done|]. split; [done|]. split; [done|].
  split.
  { intros Hlt. split; [by apply Hd|].
    by destruct (inv_entry _ _ HI (Hd Hlt)). }
  split; [done|]. split.
  { intros Hret.
    by destruct (test_inv_returned nothing t HT Hret) as (_ & _ & ? & _ & ? & ?). }
  intros r Hr'. destruct Hmain as [Hmain|(Hmain & ? & _)]; [congruence|].
  split; [congruence|done].
Qed.

Lemma test_main_is_safe_witness :
  reachable 8 (process test_sample) /\
  0 <= loop_i test_sample <= 5000 /\
  accepted (process test_sample)
    = replicate (Z.to_nat (loop_i test_sample)) (mkTask 4096 NULL) /\
  (loop_i test_sample < 5000 ->
   destroyer (process test_sample) = D_entry /\
   is_shutdown (pool (process test_sample)) = false) /\
  (forall o, pool_mutex (pool (process test_sample)) <> Locked o) /\
  (destroyer (process test_sample) = D_returned ->
   executed (process test_sample)
     = replicate (Z.to_nat 5000) (mkTask 4096 NULL) /\
   num_threads_running (pool (process test_sample)) = 0 /\
   count_returned (workers (process test_sample)) = 8%nat) /\
  (forall r, main_status test_sample = Some r ->
   r = 0 /\ destroyer (process test_sample) = D_returned).
Proof.
  apply (test_main_is_safe 4096 closing_pool test_sample_run test_sample);
    reflexivity.
Defined.

(** ** The test ends *)

Lemma returned_process_stays (s : System) (a : action) :
  Inv 8 s -> destroyer s = D_returned -> no_submit a ->
  step (ok a) s = None.
Proof.
  intros HI Hd Ha. unfold step. destruct (status s); [done|].
  destruct a as [c work| |i]; [done| |]; cbn [ev_action ok].
  - by rewrite Hd.
  - pose proof (inv_stopped _ _ HI (or_intror Hd)) as Hz.
    rewrite (inv_running _ _ HI) in Hz.
    assert (Hc : count_alive (workers s) = O) by lia.
    destruct (workers s !! i) as [w|] eqn:Hw; [|done].
    by rewrite (count_alive_0_lookup _ _ _ Hc Hw).
Qed.

Section TestSchedule.

Variable nothing : Z.
Variable uninit : Threadpool.
Variable tsched : test_schedule.
Hypothesis tsched_fair : test_fair tsched.

Local Abbreviation tk k := (test_exec nothing tsched k (main_boot uninit)).

Lemma test_step_ok_status (th : test_thread) (t t' : Test) :
  test_step nothing (mkTestEvent th 0 0) t = Some t' ->
  status (process t') = None.
Proof.
  unfold test_step. destruct (main_status t); [done|].
  destruct (status (process t)) eqn:Hst; [done|].
  destruct th as [|i]; cbn [te_thread te_lock_rc te_unlock_rc].
  - unfold main_step. destruct (loop_i t <? 5000).
    + destruct (step _ (process t)) as [s'|] eqn:Hs; [|done].
      intros [= <-]. by apply (step_ok_status _ _ _ Hs).
    + destruct (destroyer (process t)).
      5: by intros [= <-].
      all: destruct (step _ (process t)) as [s'|] eqn:Hs; [|done].
      all: intros [= <-]; by apply (step_ok_status _ _ _ Hs).
  - destruct (step _ (process t)) as [s'|] eqn:Hs; [|done].
    intros [= <-]. by apply (step_ok_status _ _ _ Hs).
Qed.

Lemma texec_inv k : test_inv nothing (tk k).
Proof.
  induction k as [|k IH]; [apply test_inv_boot|].
  simpl. unfold test_step_or_stay.
  destruct (test_step _ _ _) as [t'|] eqn:Hstep; [|done].
  eapply test_inv_step; try done. by eapply test_step_ok_status.
Qed.

Lemma test_step_loop (th : test_thread) (t t' : Test) :
  test_step nothing (mkTestEvent th 0 0) t = Some t' ->
  loop_i t <= loop_i t'.
Proof.
  unfold test_step. destruct (main_status t); [done|].
  destruct (status (process t)); [done|].
  destruct th as [|i]; cbn [te_thread te_lock_rc te_unlock_rc].
  - unfold main_step. destruct (loop_i t <? 5000).
    + destruct (step _ (process t)); [|done]. intros [= <-]. simpl. lia.
    + destruct (destroyer (process t)).
      5: by intros [= <-].
      all: destruct (step _ (process t)); [|done].
      all: by intros [= <-].
  - destruct (step _ (process t)); [|done]. by intros [= <-].
Qed.

Lemma texec_loop_mono k j : loop_i (tk k) <= loop_i (tk (k + j)).
Proof.
  induction j as [|j IH]; [by rewrite Nat.add_0_r|].
  rewrite Nat.add_succ_r. simpl. unfold test_step_or_stay.
  destruct (test_step _ _ _) as [t'|] eqn:Hstep; [|done].
  apply test_step_loop in Hstep. lia.
Qed.

(** Scheduled inside its loop, [main] gets its task accepted. *)
Lemma main_turn_submits k :
  tsched k = Main -> loop_i (tk k) < 5000 ->
  loop_i (tk (S k)) = loop_i (tk k) + 1.
Proof.
  intros Hmain Hlt.
  pose proof (texec_inv k) as (Hst & Hr & Hi & Hacc & Hd & Hm & Hms).
  pose proof (Inv_reachable 8 _ is_size_t_8 Hr Hst) as HI.
  destruct (inv_entry _ _ HI (Hd Hlt)) as [Hshut Hfree].
  simpl. unfold test_step_or_stay, test_step. rewrite Hmain, Hst.
  destruct Hms as [->|(_ & Hret & _)]; [|rewrite (Hd Hlt) in Hret; done].
  cbn [te_thread te_lock_rc te_unlock_rc]. unfold main_step.
  destruct (Z.ltb_spec (loop_i (tk k)) 5000) as [_|]; [|lia].
  change (mkEvent (Submit 0 (mkTask nothing NULL)) 0 0)
    with (ok (Submit 0 (mkTask nothing NULL))).
  by rewrite step_submit_accepted.
Qed.

Lemma main_submits (m : nat) :
  Z.of_nat m <= 5000 -> exists k, Z.of_nat m <= loop_i (tk k).
Proof.
  induction m as [|m IH]; intros Hm.
  - exists O. simpl. lia.
  - destruct IH as (k & Hk); [lia|].
    destruct tsched_fair as [Hfair _].
    destruct (Hfair k) as (k1 & Hk1 & Hmain).
    pose proof (texec_loop_mono k (k1 - k)) as Hmono.
    replace (k + (k1 - k))%nat with k1 in Hmono by lia.
    destruct (Z.ltb_spec (loop_i (tk k1)) (Z.of_nat (S m))) as [Hlt|Hge].
    + exists (S k1). rewrite (main_turn_submits k1 Hmain); lia.
    + by exists k1.
Qed.

(** Past the loop, the process goes as the pool's own threads go. *)
Lemma past_loop_simulation k0 j :
  loop_i (tk k0) = 5000 ->
  process (tk (k0 + j))
    = exec (pool_schedule tsched k0) j (process (tk k0)).
Proof.
  intros H5. induction j as [|j IH]; [by rewrite Nat.add_0_r|].
  rewrite Nat.add_succ_r. simpl. rewrite <- IH. clear IH.
  pose proof (texec_inv (k0 + j)) as (Hst & Hr & Hi & Hacc & Hd & Hm & Hms).
  pose proof (Inv_reachable 8 _ is_size_t_8 Hr Hst) as HI.
  pose proof (texec_loop_mono k0 j) as Hmono.
  unfold test_step_or_stay, test_step, step_or_stay, pool_schedule.
  rewrite Hst.
  destruct Hms as [->|(-> & Hret & _)].
  - destruct (tsched (k0 + j)%nat) as [|i];
      cbn [te_thread te_lock_rc te_unlock_rc].
    + unfold main_step.
      destruct (Z.ltb_spec (loop_i (tk (k0 + j))) 5000) as [|_]; [lia|].
      change (mkEvent Destroy 0 0) with (ok Destroy).
      destruct (destroyer (process (tk (k0 + j)))) eqn:Hpc.
      5: by rewrite (returned_process_stays _ Destroy HI Hpc I).
      all: by destruct (step (ok Destroy) _).
    + change (mkEvent (Run i) 0 0) with (ok (Run i)).
      by destruct (step (ok (Run i)) _).
  - destruct (tsched (k0 + j)%nat) as [|i].
    + by rewrite (returned_process_stays _ Destroy HI Hret I).
    + by rewrite (returned_process_stays _ (Run i) HI Hret I).
Qed.

Lemma pool_schedule_quiet k0 : quiet (pool_schedule tsched k0).
Proof. intros j. unfold pool_schedule. by destruct (tsched _). Qed.

Lemma pool_schedule_fair k0 : fair (Z.to_nat 8) (pool_schedule tsched k0).
Proof.
  destruct tsched_fair as [Hmain Hpool]. split.
  - intros k. destruct (Hmain (k0 + k)%nat) as (k' & Hk' & H).
    exists (k' - k0)%nat. split; [lia|]. unfold pool_schedule.
    replace (k0 + (k' - k0))%nat with k' by lia. by rewrite H.
  - intros i Hi k. destruct (Hpool i ltac:(lia) (k0 + k)%nat) as (k' & Hk' & H).
    exists (k' - k0)%nat. split; [lia|]. unfold pool_schedule.
    replace (k0 + (k' - k0))%nat with k' by lia. by rewrite H.
Qed.

Lemma returned_stays k j :
  destroyer (process (tk k)) = D_returned ->
  process (tk (k + j)) = process (tk k).
Proof.
  intros Hret. induction j as [|j IH]; [by rewrite Nat.add_0_r|].
  rewrite Nat.add_succ_r. simpl. rewrite <- IH. rewrite <- IH in Hret.
  clear IH.
  pose proof (texec_inv (k + j)) as (Hst & Hr & Hi & Hacc & Hd & Hm & Hms).
  pose proof (Inv_reachable 8 _ is_size_t_8 Hr Hst) as HI.
  unfold test_step_or_stay, test_step. rewrite Hst.
  destruct (main_status (tk (k + j))); [done|].
  destruct (tsched (k + j)%nat) as [|i];
    cbn [te_thread te_lock_rc te_unlock_rc].
  - unfold main_step.
    destruct (Z.ltb_spec (loop_i (tk (k + j))) 5000) as [Hlt|_].
    { rewrite (Hd Hlt) in Hret. done. }
    by rewrite Hret.
  - change (mkEvent (Run i) 0 0) with (ok (Run i)).
    by rewrite (returned_process_stays _ (Run i) HI Hret I).
Qed.

(** X8. Under every fair schedule of [main] and the eight workers, with
    mutex calls that succeed, the test ends: [main] returns 0, and by then
    all 5000 tasks were accepted and the workers have made exactly 5000
    calls [nothing(NULL)], the stack is empty, the running counter is zero
    and the eight workers have returned. *)
Theorem test_main_returns :
  exists k,
    main_status (tk k) = Some 0 /\
    status (process (tk k)) = None /\
    loop_i (tk k) = 5000 /\
    accepted (process (tk k))
      = replicate (Z.to_nat 5000) (mkTask nothing NULL) /\
    executed (process (tk k))
      = replicate (Z.to_nat 5000) (mkTask nothing NULL) /\
    task_stack (pool (process (tk k))) = [] /\
    num_threads_running (pool (process (tk k))) = 0 /\
    count_returned (workers (process (tk k))) = 8%nat.
Proof.
  destruct (main_submits (Z.to_nat 5000)) as (k0 & Hk0); [lia|].
  pose proof (texec_inv k0) as HT0.
  pose proof HT0 as (Hst0 & Hr0 & Hi0 & _ & _ & Hm0 & _).
  assert (H5 : loop_i (tk k0) = 5000) by lia.
  pose proof (Inv_reachable 8 _ is_size_t_8 Hr0 Hst0) as HI0.
  assert (Hlive : live 8 (process (tk k0))) by done.
  destruct (fair_shutdown_drains 8 is_size_t_8 (pool_schedule tsched k0)
              (pool_schedule_quiet k0) _ Hlive ltac:(lia)
              (pool_schedule_fair k0)) as (j & Hret & _).
  rewrite <- (past_loop_simulation k0 j H5) in Hret.
  destruct tsched_fair as [Hfair _].
  destruct (Hfair (k0 + j)%nat) as (k2 & Hk2 & Hmain).
  pose proof (returned_stays (k0 + j) (k2 - (k0 + j)) Hret) as Hsame.
  replace (k0 + j + (k2 - (k0 + j)))%nat with k2 in Hsame by lia.
  assert (Hret2 : destroyer (process (tk k2)) = D_returned)
    by by rewrite Hsame.
  pose proof (texec_inv k2) as HT2.
  pose proof HT2 as (Hst2 & _ & _ & _ & Hd2 & _ & Hms2).
  assert (Hdone : exists k, main_status (tk k) = Some 0 /\
                            destroyer (process (tk k)) = D_returned).
  { destruct Hms2 as [Hnone|(Hsome & _)]; [|by exists k2].
    exists (S k2). simpl. unfold test_step_or_stay, test_step.
    rewrite Hnone, Hst2, Hmain. cbn [te_thread te_lock_rc te_unlock_rc].
    unfold main_step.
    destruct (Z.ltb_spec (loop_i (tk k2)) 5000) as [Hlt|_].
    { rewrite (Hd2 Hlt) in Hret2. done. }
    rewrite Hret2. done. }
  destruct Hdone as (k & Hms & Hretk).
  exists k. pose proof (texec_inv k) as HT.
  destruct (test_inv_returned nothing _ HT Hretk)
    as (? & ? & ? & ? & ? & ?).
  destruct HT as (? & _). done.
Qed.

End TestSchedule.

Lemma test_round_robin_fair : test_fair test_round_robin.
Proof.
  split.
  - intros k. exists (k * 9)%nat. split; [lia|].
    unfold test_round_robin. by rewrite Nat.Div0.mod_mul.
  - intros i Hi k. exists (S i + k * 9)%nat. split; [lia|].
    unfold test_round_robin. rewrite Nat.Div0.mod_add.
    rewrite Nat.mod_small by lia. done.
Qed.

Lemma test_main_returns_witness :
  exists k,
    main_status (test_exec 4096 test_round_robin k (main_boot closing_pool))
      = Some 0 /\
    status (process (test_exec 4096 test_round_robin k (main_boot closing_pool)))
      = None /\
    loop_i (test_exec 4096 test_round_robin k (main_boot closing_pool)) = 5000 /\
    accepted (process (test_exec 4096 test_round_robin k (main_boot closing_pool)))
      = replicate (Z.to_nat 5000) (mkTask 4096 NULL) /\
    executed (process (test_exec 4096 test_round_robin k (main_boot closing_pool)))
      = replicate (Z.to_nat 5000) (mkTask 4096 NULL) /\
    task_stack (pool (process (test_exec 4096 test_round_robin k (main_boot closing_pool))))
      = [] /\
    num_threads_running (pool (process (test_exec 4096 test_round_robin k (main_boot closing_pool))))
      = 0 /\
    count_returned (workers (process (test_exec 4096 test_round_robin k (main_boot closing_pool))))
      = 8%nat.
Proof.
  exact (test_main_returns 4096 closing_pool test_round_robin
           test_round_robin_fair).
Defined.

(* ===================================================================== *)
(** * Part 8: the stack changes at its head only                          *)
(* ===================================================================== *)

Lemma POOL_exectask_stack (e : Env) (p : Threadpool) fn args :
  match POOL_exectask fn args e p with
  | Ret b p' =>
      task_stack p' = if b then mkTask fn args :: task_stack p else task_stack p
  | Exit _ p' =>
      task_stack p' = task_stack p \/
      task_stack p' = mkTask fn args :: task_stack p
  | Block => True
  end.
Proof.
  open_records p e. run_prog. split_rcs lrc urc.
  all: destruct pm; rcs; try done; auto.
  all: destruct sd; rcs; auto.
Qed.

Lemma iteration_stack (e : Env) (p : Threadpool) :
  match await_and_do_tasks_iteration e p with
  | Ret w p' =>
      match w with
      | W_call work => task_stack p = work :: task_stack p'
      | _ => task_stack p' = task_stack p
      end
  | Exit _ p' =>
      task_stack p' = task_stack p \/
      exists work, task_stack p = work :: task_stack p'
  | Block => True
  end.
Proof.
  open_records p e. run_prog. split_rcs lrc urc.
  all: destruct pm; rcs; try done; auto.
  all: destruct sd, ts as [|work next]; rcs; eauto.
Qed.

Lemma destroy_stack (pc : destroy_pc) (e : Env) (p : Threadpool) :
  match POOL_destroy_step pc e p with
  | Ret _ p' | Exit _ p' => task_stack p' = task_stack p
  | Block => True
  end.
Proof.
  open_records p e. destruct pc; run_prog.
  all: split_rcs lrc urc; try done.
  all: destruct pm; rcs; try done.
  all: try (destruct ts; rcs; done).
  all: destruct (nr =? 0); rcs; done.
Qed.

(** X9. The task stack is only ever changed at its head, in every step of
    every thread (steps that end the process included): a step leaves the
    stack as it is, or it is a [POOL_exectask] that puts its task on top,
    or a turn of a worker that takes the top task off. Nothing below the
    head is ever moved, dropped or reordered; a worker that ends its turn
    holding a task holds the one that was on top. *)
Theorem stack_changes_at_head_only (s s' : System) (ev : event) :
  step ev s = Some s' ->
  (task_stack (pool s') = task_stack (pool s) \/
   (exists c work, ev_action ev = Submit c work /\
                   task_stack (pool s') = work :: task_stack (pool s)) \/
   (exists i work, ev_action ev = Run i /\
                   workers s !! i = Some W_loop /\
                   task_stack (pool s) = work :: task_stack (pool s'))) /\
  (forall i work, ev_action ev = Run i ->
     workers s !! i = Some W_loop -> workers s' !! i = Some (W_call work) ->
     task_stack (pool s) = work :: task_stack (pool s')).
Proof.
  intros Hstep.
  destruct s as [p d ws acc ex st]. destruct ev as [a lrc urc].
  unfold step in Hstep. simpl in *. destruct st; [done|].
  destruct a as [c work| |i].
  - split; [|done].
    pose proof (POOL_exectask_stack
                  (env_of (mkEvent (Submit c work) lrc urc)) p
                  (task_fn work) (task_args work)) as H.
    rewrite task_eta in H.
    destruct (POOL_exectask _ _ _ p) as [b p'|st p'|];
      simpl in Hstep; inversion Hstep; subst; simpl.
    + destruct b; [right; left; by exists c, work|by left].
    + destruct H as [H|H]; [by left|right; left; by exists c, work].
  - split; [|done]. left. destruct d; try done.
    1-3: match goal with
         | H : after _ (POOL_destroy_step ?pc ?e ?q) _ = _ |- _ =>
             pose proof (destroy_stack pc e q) as HH;
             destruct (POOL_destroy_step pc e q) as [pc' p'|st p'|];
             simpl in H; inversion H; subst; simpl; done
         end.
    inversion Hstep; subst; simpl. by destruct p.
  - destruct (ws !! i) as [[|work|]|] eqn:Hw; try done.
    + pose proof (iteration_stack (env_of (mkEvent (Run i) lrc urc)) p) as H.
      assert (Hlen : (i < length ws)%nat) by by eapply lookup_lt_Some.
      destruct (await_and_do_tasks_iteration _ p) as [w p'|st p'|];
        simpl in Hstep; inversion Hstep; subst; simpl.
      * split.
        -- destruct w as [|work|]; [by left| |by left].
           right; right. by exists i, work.
        -- intros j work [= <-] _. rewrite list_lookup_insert_eq by done.
           by intros [= ->].
      * split.
        -- destruct H as [H|[work H]]; [by left|].
           right; right. by exists i, work.
        -- intros j work [= <-] _. rewrite Hw. done.
    + inversion Hstep; subst; simpl. split; [by left|].
      intros j w [= <-]. rewrite Hw. done.
Qed.

Lemma stack_changes_at_head_only_witness :
  (task_stack (pool sample_popped) = task_stack (pool sample_waiting) \/
   (exists c work, ev_action (ok (Run 1)) = Submit c work /\
      task_stack (pool sample_popped) = work :: task_stack (pool sample_waiting)) \/
   (exists i work, ev_action (ok (Run 1)) = Run i /\
      workers sample_waiting !! i = Some W_loop /\
      task_stack (pool sample_waiting)
        = work :: task_stack (pool sample_popped))) /\
  (forall i work, ev_action (ok (Run 1)) = Run i ->
     workers sample_waiting !! i = Some W_loop ->
     workers sample_popped !! i = Some (W_call work) ->
     task_stack (pool sample_waiting) = work :: task_stack (pool sample_popped)).
Proof.
  apply (stack_changes_at_head_only sample_waiting sample_popped (ok (Run 1))).
  reflexivity.
Defined.
